(** * norac_scraper: the reconciliation of scraped projects against the
      SQLite store, embedded from [norac_scraper.py].

    The development follows the source file top to bottom: the two tables
    of [setup_database], the statements that [save_projects] sends to the
    cursor, the loop body of [save_projects] with its [try]/[except], and
    the cycle [scrape_and_save] that the scheduler runs. *)

From Stdlib Require Import List String Ascii Bool Arith Lia.
Import ListNotations.
Open Scope string_scope.
Open Scope list_scope.

(** ** Values and rows *)

(** What a column holds and what [sqlite3] hands back to Python: [None]
    (SQL [NULL]) or a text. *)
Definition value := option string.

(** [datetime.now()], kept as the text that the default [sqlite3] adapter
    binds for it. *)
Definition datetime := string.

(** One dict appended by [parse_projects].  [list_id] is [None] when the
    item has no title link; the five fields are always texts. *)
Record project := mkProject {
  list_id : value;
  title : string;
  location : string;
  budget : string;
  status : string;
  description : string
}.

(** [s.split(sep)] for a separator of one character. *)
Fixpoint split (sep : Ascii.ascii) (s : string) : list string :=
  match s with
  | EmptyString => [EmptyString]
  | String c s' =>
      if Ascii.eqb c sep then EmptyString :: split sep s'
      else match split sep s' with
           | [] => [String c EmptyString]
           | w :: ws => String c w :: ws
           end
  end.

(** The id that [parse_projects] gives an item, from the [href] of its
    title link when it has one:
    [property_url['href'].split('/')[-2] if property_url else None].
    The outer [None] is the [IndexError] of a link with no slash, on
    which [parse_projects] drops the item. *)
Definition extract_list_id (href : option string) : option value :=
  match href with
  | None => Some None
  | Some h =>
      let parts := split "/"%char h in
      if Nat.ltb (List.length parts) 2 then None
      else Some (Some (nth (List.length parts - 2) parts EmptyString))
  end.

(** A row of table [projects], in column order. *)
Record project_row := mkRow {
  r_list_id : value;
  r_title : value;
  r_location : value;
  r_budget : value;
  r_status : value;
  r_description : value;
  r_last_updated : value
}.

(** A row of table [changes], in column order; [c_id] is the
    [AUTOINCREMENT] key. *)
Record change_row := mkChangeRow {
  c_id : nat;
  c_list_id : value;
  c_field_name : value;
  c_old_value : value;
  c_new_value : value;
  c_change_date : value
}.

Record database := mkDb {
  projects : list project_row;
  changes : list change_row
}.

(** The tuple that [fetchone] returns for a row of [projects]. *)
Definition as_tuple (r : project_row) : list value :=
  [r_list_id r; r_title r; r_location r; r_budget r; r_status r;
   r_description r; r_last_updated r].

(** The tracked fields, [fields] in [save_projects]. *)
Inductive field := Title | Location | Budget | Status | Description.

Definition fields : list field :=
  [Title; Location; Budget; Status; Description].

(** The dict key and column name of a tracked field. *)
Definition key (f : field) : string :=
  match f with
  | Title => "title"
  | Location => "location"
  | Budget => "budget"
  | Status => "status"
  | Description => "description"
  end.

Definition field_eqb (f g : field) : bool :=
  match f, g with
  | Title, Title | Location, Location | Budget, Budget
  | Status, Status | Description, Description => true
  | _, _ => false
  end.

(** [project[field]] *)
Definition get (p : project) (f : field) : string :=
  match f with
  | Title => title p
  | Location => location p
  | Budget => budget p
  | Status => status p
  | Description => description p
  end.

(** [fields.index(field)] *)
Fixpoint index (f : field) (l : list field) : nat :=
  match l with
  | [] => 0
  | g :: l' => if field_eqb f g then 0 else S (index f l')
  end.

(** Python's [==] on two values read from or bound to a column. *)
Definition value_eqb (a b : value) : bool :=
  match a, b with
  | None, None => true
  | Some x, Some y => String.eqb x y
  | _, _ => false
  end.

(** SQL's [=] in a [WHERE] clause: a [NULL] on either side is never
    equal. *)
Definition sql_eq (a b : value) : bool :=
  match a, b with
  | Some x, Some y => String.eqb x y
  | _, _ => false
  end.

(** ** Exceptions, output and the environment *)

Inductive exn :=
| OperationalError
| IntegrityError
| ProgrammingError
| RequestException
| ParserError.

(** The lines printed by [save_projects] and [scrape_and_save]. *)
Inductive message :=
| StartingScrape (t : datetime)
| NewProjectAdded (t : string)
| ProjectUpdated (t : string) (n : nat)
| NoChangesDetected (t : string)
| ErrorProcessing (id : value) (e : exn)
| SuccessfullyProcessed (n : nat)
| ErrorInCycle (e : exn).

(** What the program does not decide itself: whether the n-th call into
    [sqlite3] fails, what the n-th reading of the clock is, and what the
    n-th fetch of the page and its parse give. *)
Record env := mkEnv {
  raises : nat -> bool;
  now : nat -> datetime;
  fetch : nat -> option string;
  parse : string -> option (list project)
}.

(** ** Program state *)

(** [durable] is the database file; [working] is what the open
    connection sees (its uncommitted transaction included); the counters
    number the calls into [sqlite3], the clock readings and the fetches;
    [stdout] is what was printed, oldest first. *)
Record state := mkState {
  durable : database;
  working : database;
  n_calls : nat;
  n_now : nat;
  n_fetch : nat;
  stdout : list message
}.

Definition set_working (d : database) (s : state) : state :=
  mkState (durable s) d (n_calls s) (n_now s) (n_fetch s) (stdout s).

Definition set_durable (d : database) (s : state) : state :=
  mkState d (working s) (n_calls s) (n_now s) (n_fetch s) (stdout s).

Definition tick_calls (s : state) : state :=
  mkState (durable s) (working s) (S (n_calls s)) (n_now s) (n_fetch s)
    (stdout s).

Definition tick_now (s : state) : state :=
  mkState (durable s) (working s) (n_calls s) (S (n_now s)) (n_fetch s)
    (stdout s).

Definition tick_fetch (s : state) : state :=
  mkState (durable s) (working s) (n_calls s) (n_now s) (S (n_fetch s))
    (stdout s).

Definition put_line (m : message) (s : state) : state :=
  mkState (durable s) (working s) (n_calls s) (n_now s) (n_fetch s)
    (stdout s ++ [m]).

(** ** A state and exception monad *)

Inductive result (A : Type) :=
| Ok (a : A)
| Raise (e : exn).
Arguments Ok {A} a.
Arguments Raise {A} e.

Definition M (A : Type) := state -> result A * state.

Definition ret {A} (a : A) : M A := fun s => (Ok a, s).

Definition bind {A B} (m : M A) (k : A -> M B) : M B :=
  fun s =>
    match m s with
    | (Ok a, s') => k a s'
    | (Raise e, s') => (Raise e, s')
    end.

Definition raise {A} (e : exn) : M A := fun s => (Raise e, s).

(** [try: m except Exception as e: h e] *)
Definition try_except {A} (m : M A) (h : exn -> M A) : M A :=
  fun s =>
    match m s with
    | (Ok a, s') => (Ok a, s')
    | (Raise e, s') => h e s'
    end.

Declare Scope monad_scope.
Delimit Scope monad_scope with monad.
Notation "x <- m ;; k" := (bind m (fun x => k))
  (at level 61, m at next level, right associativity) : monad_scope.
Notation "m ;; k" := (bind m (fun _ => k))
  (at level 61, right associativity) : monad_scope.
Open Scope monad_scope.

(** [for x in l: body x] *)
Fixpoint for_each {A} (l : list A) (body : A -> M unit) : M unit :=
  match l with
  | [] => ret tt
  | x :: l' => body x ;; for_each l' body
  end.

Definition print (m : message) : M unit := fun s => (Ok tt, put_line m s).

(** ** The statements sent to the cursor *)

(** The four SQL texts of [save_projects], parameters left as [?]. *)
Inductive sql :=
| SELECT_projects   (* SELECT * FROM projects WHERE list_id = ? *)
| INSERT_projects   (* INSERT INTO projects (list_id, title, location,
                       budget, status, description, last_updated)
                       VALUES (?, ?, ?, ?, ?, ?, ?) *)
| UPDATE_projects   (* UPDATE projects SET title = ?, location = ?,
                       budget = ?, status = ?, description = ?,
                       last_updated = ? WHERE list_id = ? *)
| INSERT_changes.   (* INSERT INTO changes (list_id, field_name,
                       old_value, new_value, change_date)
                       VALUES (?, ?, ?, ?, ?) *)

(** What a statement does to the tables, its parameters bound to the
    placeholders from left to right.  [list_id] is a [TEXT PRIMARY KEY]
    of an ordinary rowid table: a second row with the same text is
    refused, [NULL] is accepted any number of times.  The foreign key of
    [changes] is not enforced (no [PRAGMA foreign_keys]).  A text bound to
    [last_updated] is kept as it is bound. *)
Definition run (q : sql) (params : list value) (d : database)
  : result (list project_row * database) :=
  match q, params with
  | SELECT_projects, [id] =>
      Ok (filter (fun r => sql_eq (r_list_id r) id) (projects d), d)
  | INSERT_projects, [id; t; l; b; st; de; lu] =>
      if existsb (fun r => sql_eq (r_list_id r) id) (projects d)
      then Raise IntegrityError
      else Ok ([], mkDb (projects d ++ [mkRow id t l b st de lu]) (changes d))
  | UPDATE_projects, [t; l; b; st; de; lu; id] =>
      Ok ([], mkDb (map (fun r => if sql_eq (r_list_id r) id
                                  then mkRow (r_list_id r) t l b st de lu
                                  else r) (projects d))
                   (changes d))
  | INSERT_changes, [id; f; o; n; dt] =>
      Ok ([], mkDb (projects d)
                   (changes d ++
                    [mkChangeRow (S (List.length (changes d))) id f o n dt]))
  | _, _ => Raise ProgrammingError
  end.

(** [cursor.fetchone()] *)
Definition fetchone (rows : list project_row) : option project_row :=
  hd_error rows.

(** An entry of the list [changes] built by [save_projects]. *)
Record change := mkChange {
  field_name : string;
  old_value : value;
  new_value : string
}.

(** [existing[fields.index(field) + 1]], the [+ 1] skipping [list_id]. *)
Definition column (existing : project_row) (f : field) : value :=
  nth (index f fields + 1) (as_tuple existing) None.

(** One pass of the comparison loop of [save_projects]: the stored
    column against [project[field]]. *)
Definition compare (existing : project_row) (p : project) (f : field)
  : list change :=
  let old := column existing f in
  let new := get p f in
  if value_eqb old (Some new) then [] else [mkChange (key f) old new].

Definition diff (existing : project_row) (p : project) : list change :=
  flat_map (compare existing p) fields.

Section Program.

Variable E : env.

Definition datetime_now : M datetime :=
  fun s => (Ok (now E (n_now s)), tick_now s).

(** Every call into [sqlite3] may fail. *)
Definition sqlite3_call : M unit :=
  fun s =>
    if raises E (n_calls s)
    then (Raise OperationalError, tick_calls s)
    else (Ok tt, tick_calls s).

(** [cursor.execute(q, params)]; a statement that fails changes
    nothing. *)
Definition execute (q : sql) (params : list value) : M (list project_row) :=
  sqlite3_call ;;
  fun s =>
    match run q params (working s) with
    | Ok (rows, d) => (Ok rows, set_working d s)
    | Raise e => (Raise e, s)
    end.

(** [sqlite3.connect('norac_projects.db')] *)
Definition connect : M unit :=
  sqlite3_call ;; fun s => (Ok tt, set_working (durable s) s).

(** [conn.commit()] *)
Definition commit : M unit :=
  sqlite3_call ;; fun s => (Ok tt, set_durable (working s) s).

(** [setup_database]: both statements are [CREATE TABLE IF NOT EXISTS]
    and leave the rows of a table that exists alone. *)
Definition setup_database : M unit :=
  connect ;;
  sqlite3_call ;;
  sqlite3_call ;;
  commit.

(** The [for change in changes] loop body. *)
Definition log_change (p : project) (c : change) : M unit :=
  t <- datetime_now ;;
  execute INSERT_changes
    [list_id p; Some (field_name c); old_value c; Some (new_value c);
     Some t] ;;
  ret tt.

(** The body of the [try] in [save_projects]. *)
Definition reconcile (p : project) : M unit :=
  rows <- execute SELECT_projects [list_id p] ;;
  match fetchone rows with
  | None =>
      t <- datetime_now ;;
      execute INSERT_projects
        [list_id p; Some (title p); Some (location p); Some (budget p);
         Some (status p); Some (description p); Some t] ;;
      print (NewProjectAdded (title p))
  | Some existing =>
      match diff existing p with
      | [] => print (NoChangesDetected (title p))
      | c :: cs =>
          t <- datetime_now ;;
          execute UPDATE_projects
            (map (fun f => Some (get p f)) fields ++ [list_id p; Some t]) ;;
          for_each (c :: cs) (log_change p) ;;
          print (ProjectUpdated (title p) (List.length (c :: cs)))
      end
  end.

(** One iteration of [for project in projects], the [except] clause
    included. *)
Definition process (p : project) : M unit :=
  try_except (reconcile p) (fun e => print (ErrorProcessing (list_id p) e)).

(** [conn.close()], which follows the commit, changes nothing that the
    state records. *)
Definition save_projects (ps : list project) : M unit :=
  connect ;;
  for_each ps process ;;
  commit.

(** [fetch_projects], its three tries taken together. *)
Definition fetch_projects : M string :=
  fun s =>
    match fetch E (n_fetch s) with
    | Some html => (Ok html, tick_fetch s)
    | None => (Raise RequestException, tick_fetch s)
    end.

Definition parse_projects (html : string) : M (list project) :=
  match parse E html with
  | Some ps => ret ps
  | None => raise ParserError
  end.

Definition scrape_and_save : M unit :=
  t <- datetime_now ;;
  print (StartingScrape t) ;;
  try_except
    (html <- fetch_projects ;;
     ps <- parse_projects html ;;
     save_projects ps ;;
     print (SuccessfullyProcessed (List.length ps)))
    (fun e => print (ErrorInCycle e)).

(** The first [n] cycles that the scheduler starts. *)
Fixpoint cycles (n : nat) : M unit :=
  match n with
  | 0 => ret tt
  | S n' => scrape_and_save ;; cycles n'
  end.

(** The script run as a program, up to the [n]-th cycle that the
    scheduler starts after the initial one. *)
Definition main (n : nat) : M unit :=
  setup_database ;;
  scrape_and_save ;;
  cycles n.

End Program.

(** ** Vocabulary of the statements below *)

(** The row that the [SELECT] of [save_projects] hands to [existing]. *)
Definition existing_row (d : database) (id : value) : option project_row :=
  fetchone (filter (fun r => sql_eq (r_list_id r) id) (projects d)).

(** The row that the [INSERT INTO projects] writes for [p] at clock
    reading [t]. *)
Definition new_row (p : project) (t : datetime) : project_row :=
  mkRow (list_id p) (Some (title p)) (Some (location p)) (Some (budget p))
    (Some (status p)) (Some (description p)) (Some t).

(** What the [UPDATE] of [save_projects] does to a row when it is sent
    for [p] at clock reading [t]: the row is picked by comparing its
    [list_id] with [t], and a picked row gets [p]'s id as its
    [last_updated]. *)
Definition updated_row (p : project) (t : datetime) (r : project_row)
  : project_row :=
  if sql_eq (r_list_id r) (Some t)
  then mkRow (r_list_id r) (Some (title p)) (Some (location p))
         (Some (budget p)) (Some (status p)) (Some (description p))
         (list_id p)
  else r.

(** The rows of [changes] written for the entries [cs] of [p], the first
    at clock reading number [n] with key [S k]. *)
Fixpoint entries (now : nat -> datetime) (p : project) (n k : nat)
  (cs : list change) : list change_row :=
  match cs with
  | [] => []
  | c :: cs' =>
      mkChangeRow (S k) (list_id p) (Some (field_name c)) (old_value c)
        (Some (new_value c)) (Some (now n))
      :: entries now p (S n) (S k) cs'
  end.

(** No call into [sqlite3] numbered [n], ..., [n + k - 1] fails. *)
Definition no_fault (E : env) (n k : nat) : Prop :=
  forall i, i < k -> raises E (n + i) = false.

(** The loop of [save_projects] up to, and without, the commit. *)
Definition uncommitted (E : env) (ps : list project) : M unit :=
  connect E ;; for_each ps (process E).

(** The five stored fields of [r] are the texts of [p]. *)
Definition same_fields (r : project_row) (p : project) : Prop :=
  r_title r = Some (title p) /\
  r_location r = Some (location p) /\
  r_budget r = Some (budget p) /\
  r_status r = Some (status p) /\
  r_description r = Some (description p).

(** Every row of [d] that carries the id of a record of the batch carries
    that record's fields. *)
Definition agree (ps : list project) (d : database) : Prop :=
  forall p r,
    In p ps -> In r (projects d) ->
    sql_eq (r_list_id r) (list_id p) = true -> same_fields r p.

(** Records of the batch with the same id are the same record. *)
Definition coherent (ps : list project) : Prop :=
  forall p q, In p ps -> In q ps -> list_id p = list_id q -> p = q.

(** Every record of the batch has an id. *)
Definition identified (ps : list project) : Prop :=
  forall p, In p ps -> list_id p <> None.

(** The non-[NULL] ids of a list of rows. *)
Definition ids (rows : list project_row) : list string :=
  flat_map (fun r => match r_list_id r with Some i => [i] | None => [] end)
    rows.

(** No id is carried by two rows, in the file and in the connection. *)
Definition unique_ids (s : state) : Prop :=
  NoDup (ids (projects (durable s))) /\ NoDup (ids (projects (working s))).

(** A computation keeps a property of the state, however it ends. *)
Definition keeps {A} (P : state -> Prop) (m : M A) : Prop :=
  forall s, P s -> P (snd (m s)).

(** ** The extractor *)

(** [c.isspace()] for a character below code point 256: the characters
    that [str.strip()] removes. *)
Definition isspace (c : ascii) : bool :=
  let n := nat_of_ascii c in
  (Nat.leb 9 n && Nat.leb n 13) || (Nat.leb 28 n && Nat.leb n 32)
  || Nat.eqb n 133 || Nat.eqb n 160.

Fixpoint lstrip (s : string) : string :=
  match s with
  | EmptyString => EmptyString
  | String c s' => if isspace c then lstrip s' else s
  end.

Fixpoint rstrip (s : string) : string :=
  match s with
  | EmptyString => EmptyString
  | String c s' =>
      match rstrip s' with
      | EmptyString => if isspace c then EmptyString else String c EmptyString
      | r => String c r
      end
  end.

(** [s.strip()] *)
Definition strip (s : string) : string := rstrip (lstrip s).

(** What the [find] calls of [parse_projects] get from the [div] of
    class [property-element-inline]: its text and, when it has one, the
    text of the [span] of class [property-address] inside it. *)
Record inline_div := mkDiv {
  div_text : string;
  address_span : option string
}.

(** What the [find] calls of [parse_projects] get from one item of class
    [property-item]: the text of each element that is found, and for the
    title link its [href] attribute when it has one. *)
Record property_item := mkItem {
  title_h2 : option string;
  price_span : option string;
  element_inline : option inline_div;
  status_span : option string;
  title_link : option (option string)
}.

(** The exceptions that the [try] body of [parse_projects] raises:
    [.text] on a [None], a link without [href], a [split] with fewer
    than two parts. *)
Inductive parse_error := AttributeError | KeyError | IndexError.

(** The [try] body of [parse_projects] for one item, in the order of
    the source. *)
Definition parse_item (it : property_item) : parse_error + project :=
  match title_h2 it with
  | None => inl AttributeError
  | Some t =>
  match price_span it with
  | None => inl AttributeError
  | Some price =>
  match
    match element_inline it with
    | None => inr EmptyString
    | Some d =>
        match address_span d with
        | None => inl AttributeError
        | Some a => inr (strip a)
        end
    end
  with
  | inl e => inl e
  | inr loc =>
  let st := match status_span it with
            | Some x => strip x
            | None => EmptyString
            end in
  match
    match title_link it with
    | None => inr None
    | Some None => inl KeyError
    | Some (Some href) =>
        match extract_list_id (Some href) with
        | None => inl IndexError
        | Some id => inr id
        end
    end
  with
  | inl e => inl e
  | inr id =>
      inr (mkProject id (strip t) loc (strip price) st
             (match element_inline it with
              | Some d => strip (div_text d)
              | None => EmptyString
              end))
  end end end end.

(** The loop of [parse_projects] over the items that [find_all] found:
    the list [projects] and the exceptions printed, both oldest first. *)
Fixpoint parse_items (items : list property_item)
  : list project * list parse_error :=
  match items with
  | [] => ([], [])
  | it :: rest =>
      let (ps, errs) := parse_items rest in
      match parse_item it with
      | inr p => (p :: ps, errs)
      | inl e => (ps, e :: errs)
      end
  end.

(** Every character of [s] is one that [strip] removes. *)
Fixpoint spaces (s : string) : bool :=
  match s with
  | EmptyString => true
  | String c s' => isspace c && spaces s'
  end.

(** [t] neither starts nor ends with a whitespace character. *)
Definition trimmed (t : string) : Prop :=
  (forall c r, t = String c r -> isspace c = false) /\
  (forall r c,
     t = String.append r (String c EmptyString) -> isspace c = false).

(** The five texts of a record. *)
Definition texts (p : project) : list string := map (get p) fields.

(** The character [c] occurs in [s]. *)
Fixpoint occurs (c : ascii) (s : string) : bool :=
  match s with
  | EmptyString => false
  | String c' s' => Ascii.eqb c' c || occurs c s'
  end.

(** ** The fetch *)

(** What [requests.get] returns. *)
Record response := mkResponse {
  status_code : nat;
  text : string
}.

(** One call of the body of [fetch_projects]: [requests.get] raises a
    [RequestException] ([None]) or returns a response, on which
    [raise_for_status] raises for a status from 400 to 599; the function
    prints [Error fetching projects] and raises again, or returns the
    text. *)
Definition fetch_once (got : option response) : result string :=
  match got with
  | None => Raise RequestException
  | Some r =>
      if Nat.leb 400 (status_code r) && Nat.ltb (status_code r) 600
      then Raise RequestException
      else Ok (text r)
  end.

(** What a decorated call did: its result, the number of calls of the
    body (each failed one printed its error line), and the seconds
    slept. *)
Record fetched := mkFetched {
  outcome : result string;
  calls : nat;
  slept : nat
}.

(** [@retry(tries = S again, delay = delay)] around the body, the [k]-th
    call of [requests.get] coming first: a result is returned at once, a
    failure with tries left is followed by [delay] seconds of sleep and
    another call, and the failure of the last try is raised. *)
Fixpoint retry (delay again : nat) (get : nat -> option response) (k : nat)
  : fetched :=
  match fetch_once (get k) with
  | Ok t => mkFetched (Ok t) 1 0
  | Raise e =>
      match again with
      | 0 => mkFetched (Raise e) 1 0
      | S again' =>
          let r := retry delay again' get (S k) in
          mkFetched (outcome r) (S (calls r)) (delay + slept r)
      end
  end.

(** [fetch_projects] as decorated: [@retry(tries=3, delay=2)]. *)
Definition fetch_projects_retrying (get : nat -> option response) (k : nat)
  : fetched :=
  retry 2 2 get k.

(** ** Properties of the store *)

(** [d'] keeps what [d] holds: the change log of [d] is the beginning of
    that of [d'], and the ids of the rows of [d], in order, are the
    beginning of those of [d']. *)
Definition extends (d d' : database) : Prop :=
  (exists l, changes d' = changes d ++ l) /\
  (exists l,
     map r_list_id (projects d') = map r_list_id (projects d) ++ l).

(** A row of [changes] names a tracked field, records two different
    values, and carries the id of a row of [projects]. *)
Definition sound_change (d : database) (c : change_row) : Prop :=
  (exists f, c_field_name c = Some (key f)) /\
  c_old_value c <> c_new_value c /\
  (exists i, c_list_id c = Some i /\ In i (ids (projects d))).

Definition sound_log (d : database) : Prop :=
  Forall (sound_change d) (changes d).

(** The non-[NULL] ids of a batch. *)
Definition batch_ids (ps : list project) : list string :=
  flat_map (fun p => match list_id p with Some i => [i] | None => [] end) ps.

(** The rows inserted for the records [ps], one clock reading each from
    reading number [n] on. *)
Fixpoint new_rows (now : nat -> datetime) (n : nat) (ps : list project)
  : list project_row :=
  match ps with
  | [] => []
  | p :: ps' => new_row p (now n) :: new_rows now (S n) ps'
  end.

(** The rows of [d] are those of [d0] followed by rows inserted for
    records of [ps]. *)
Definition grown (ps : list project) (d0 d : database) : Prop :=
  exists l,
    projects d = projects d0 ++ l /\
    Forall (fun r => exists p t, In p ps /\ r = new_row p t) l.

(** The number of calls into [sqlite3], out of the [k] calls numbered
    from [n] on, that are made before the first one that fails. *)
Fixpoint first_fault (E : env) (n k : nat) : nat :=
  match k with
  | 0 => 0
  | S k' => if raises E n then 0 else S (first_fault E (S n) k')
  end.

(** The number of inserts into [changes] that run for a record with [k]
    entries whose [SELECT] is call number [n]: none when the [SELECT] or
    the [UPDATE] after it fails, otherwise those before the first insert
    that fails. *)
Definition entries_written (E : env) (n k : nat) : nat :=
  if raises E n then 0
  else if raises E (S n) then 0
  else first_fault E (S (S n)) k.

(** ** Concrete inputs *)

Definition stamp (n : nat) : datetime :=
  String.append "2024-05-01 10:00:0" (String (Ascii.ascii_of_nat (48 + n)) "").

(** An environment in which nothing fails and the clock advances. *)
Definition calm : env :=
  mkEnv (fun _ => false) stamp (fun _ => None) (fun _ => None).

(** The same, except that call number [k] into [sqlite3] fails. *)
Definition faulty (k : nat) : env :=
  mkEnv (Nat.eqb k) stamp (fun _ => None) (fun _ => None).

Definition empty_db : database := mkDb [] [].

Definition start (d : database) : state := mkState d d 0 0 0 [].

Definition house : project :=
  mkProject (Some "a1") "House" "X" "10k" "Open" "d".

Definition house_closed : project :=
  mkProject (Some "a1") "House" "X" "10k" "Closed" "d".

Definition villa_closed : project :=
  mkProject (Some "a1") "Villa" "X" "10k" "Closed" "d".

Definition no_link : project :=
  mkProject None "Plot" "Y" "5k" "Open" "p".

Definition house_row : project_row := new_row house (stamp 0).

Definition house_db : database := mkDb [house_row] [].

(** A batch in which the second [INSERT INTO changes] of a record
    fails: call 0 is the connect, 1 the [SELECT], 2 the [UPDATE], 3 and 4
    the inserts, 5 the commit. *)
Definition torn_run : result unit * state :=
  save_projects (faulty 4) [villa_closed] (start house_db).

(** * Facts about the statements *)

Section Facts.

Variable E : env.

Lemma sqlite3_call_ok (s : state) :
  raises E (n_calls s) = false ->
  sqlite3_call E s = (Ok tt, tick_calls s).
Proof. intros H. unfold sqlite3_call. now rewrite H. Qed.

Lemma sqlite3_call_fails (s : state) :
  raises E (n_calls s) = true ->
  sqlite3_call E s = (Raise OperationalError, tick_calls s).
Proof. intros H. unfold sqlite3_call. now rewrite H. Qed.

Lemma execute_ok (q : sql) (params : list value) (s : state) rows d :
  raises E (n_calls s) = false ->
  run q params (working s) = Ok (rows, d) ->
  execute E q params s = (Ok rows, set_working d (tick_calls s)).
Proof.
  intros Hr Hq. unfold execute, bind.
  rewrite (sqlite3_call_ok s Hr). cbn. now rewrite Hq.
Qed.

Lemma execute_fails (q : sql) (params : list value) (s : state) :
  raises E (n_calls s) = true ->
  execute E q params s = (Raise OperationalError, tick_calls s).
Proof.
  intros Hr. unfold execute, bind. now rewrite (sqlite3_call_fails s Hr).
Qed.

Lemma no_match_no_conflict (f : project_row -> bool) (l : list project_row) :
  hd_error (filter f l) = None -> existsb f l = false.
Proof.
  induction l as [|r l IH]; cbn; [reflexivity|].
  destruct (f r); cbn; [discriminate|exact IH].
Qed.

(** The insert path of the loop body, when its two statements succeed. *)
Lemma process_absent (p : project) (s : state) :
  no_fault E (n_calls s) 2 ->
  existing_row (working s) (list_id p) = None ->
  process E p s =
  (Ok tt,
   mkState (durable s)
     (mkDb (projects (working s) ++ [new_row p (now E (n_now s))])
           (changes (working s)))
     (S (S (n_calls s))) (S (n_now s)) (n_fetch s)
     (stdout s ++ [NewProjectAdded (title p)])).
Proof.
  intros Hf Hx.
  assert (H0 : raises E (n_calls s) = false).
  { rewrite <- (Nat.add_0_r (n_calls s)). apply Hf. lia. }
  assert (H1 : raises E (S (n_calls s)) = false).
  { rewrite <- Nat.add_1_r. apply Hf. lia. }
  unfold process, try_except, reconcile, bind at 1.
  rewrite (execute_ok SELECT_projects [list_id p] s _ (working s) H0 eq_refl).
  unfold existing_row in Hx. rewrite Hx.
  unfold bind at 1. unfold datetime_now. unfold bind at 1.
  erewrite execute_ok; [reflexivity | exact H1 |].
  cbn. rewrite (no_match_no_conflict _ _ Hx). reflexivity.
Qed.

Lemma no_fault_head (n k : nat) :
  no_fault E n (S k) -> raises E n = false.
Proof. intros H. rewrite <- (Nat.add_0_r n). apply H. lia. Qed.

Lemma no_fault_tail (n k : nat) :
  no_fault E n (S k) -> no_fault E (S n) k.
Proof.
  intros H i Hi. replace (S n + i) with (n + S i) by lia. apply H. lia.
Qed.

(** One pass of the [for change in changes] loop body whose [INSERT]
    succeeds. *)
Lemma log_change_ok (p : project) (c : change) (s : state) :
  raises E (n_calls s) = false ->
  log_change E p c s =
  (Ok tt,
   mkState (durable s)
     (mkDb (projects (working s))
           (changes (working s) ++
            entries (now E) p (n_now s) (List.length (changes (working s)))
              [c]))
     (S (n_calls s)) (S (n_now s)) (n_fetch s) (stdout s)).
Proof.
  intros H. unfold log_change, datetime_now. unfold bind at 1.
  unfold bind at 1. erewrite execute_ok; [reflexivity | exact H | reflexivity].
Qed.

Lemma log_change_fails (p : project) (c : change) (s : state) :
  raises E (n_calls s) = true ->
  log_change E p c s = (Raise OperationalError, tick_calls (tick_now s)).
Proof.
  intros H. unfold log_change, datetime_now. unfold bind at 1.
  unfold bind at 1. now rewrite execute_fails.
Qed.

(** The whole logging loop when none of its statements fails. *)
Lemma log_changes_ok (p : project) (cs : list change) :
  forall s,
    no_fault E (n_calls s) (List.length cs) ->
    for_each cs (log_change E p) s =
    (Ok tt,
     mkState (durable s)
       (mkDb (projects (working s))
             (changes (working s) ++
              entries (now E) p (n_now s) (List.length (changes (working s)))
                cs))
       (n_calls s + List.length cs) (n_now s + List.length cs) (n_fetch s)
       (stdout s)).
Proof.
  induction cs as [|c cs IH]; intros s Hf.
  - cbn. unfold ret. destruct s as [du [ps chs] nc nn nf out]; cbn.
    now rewrite app_nil_r, !Nat.add_0_r.
  - cbn [for_each]. unfold bind.
    rewrite (log_change_ok p c s (no_fault_head _ _ Hf)).
    rewrite IH by (apply no_fault_tail; exact Hf).
    cbn. rewrite <- app_assoc, length_app. cbn.
    rewrite Nat.add_1_r, !Nat.add_succ_r. reflexivity.
Qed.

(** The logging loop under any faults: the rows written are a prefix of
    the entries, the whole of them exactly when the loop ends normally;
    nothing else is touched. *)
Lemma log_changes_prefix (p : project) (cs : list change) :
  forall s,
    exists j,
      j <= List.length cs /\
      working (snd (for_each cs (log_change E p) s)) =
        mkDb (projects (working s))
          (changes (working s) ++
           firstn j (entries (now E) p (n_now s)
                       (List.length (changes (working s))) cs)) /\
      durable (snd (for_each cs (log_change E p) s)) = durable s /\
      stdout (snd (for_each cs (log_change E p) s)) = stdout s /\
      (fst (for_each cs (log_change E p) s) = Ok tt <-> j = List.length cs).
Proof.
  induction cs as [|c cs IH]; intros s.
  - exists 0. cbn. rewrite app_nil_r. destruct (working s).
    repeat split; auto.
  - cbn [for_each]. unfold bind.
    destruct (raises E (n_calls s)) eqn:Hr.
    + rewrite (log_change_fails p c s Hr). exists 0. cbn.
      rewrite app_nil_r. destruct (working s).
      repeat split; auto with arith; discriminate.
    + rewrite (log_change_ok p c s Hr).
      match goal with |- context [for_each cs _ ?s1] =>
        destruct (IH s1) as (j & Hj & Hw & Hd & Ho & Hok) end.
      exists (S j). rewrite Hw, Hd, Ho. cbn in *.
      rewrite <- app_assoc, length_app, Nat.add_1_r. cbn.
      repeat split; try lia; auto.
      * intros H. f_equal. now apply Hok.
      * intros H. apply Hok. lia.
Qed.

(** The no-change path of the loop body. *)
Lemma process_unchanged (p : project) (s : state) (existing : project_row) :
  raises E (n_calls s) = false ->
  existing_row (working s) (list_id p) = Some existing ->
  diff existing p = [] ->
  process E p s =
  (Ok tt,
   mkState (durable s) (working s) (S (n_calls s)) (n_now s) (n_fetch s)
     (stdout s ++ [NoChangesDetected (title p)])).
Proof.
  intros H0 Hx Hd.
  unfold process, try_except, reconcile, bind at 1.
  rewrite (execute_ok SELECT_projects [list_id p] s _ (working s) H0 eq_refl).
  unfold existing_row in Hx. rewrite Hx, Hd. reflexivity.
Qed.

(** The update path of the loop body, when none of its statements
    fails. *)
Lemma process_changed (p : project) (s : state) (existing : project_row)
  (c : change) (cs : list change) :
  no_fault E (n_calls s) (2 + List.length (c :: cs)) ->
  existing_row (working s) (list_id p) = Some existing ->
  diff existing p = c :: cs ->
  process E p s =
  (Ok tt,
   mkState (durable s)
     (mkDb (map (updated_row p (now E (n_now s))) (projects (working s)))
           (changes (working s) ++
            entries (now E) p (S (n_now s))
              (List.length (changes (working s))) (c :: cs)))
     (S (S (n_calls s)) + List.length (c :: cs))
     (S (n_now s) + List.length (c :: cs)) (n_fetch s)
     (stdout s ++ [ProjectUpdated (title p) (List.length (c :: cs))])).
Proof.
  intros Hf Hx Hd.
  pose proof (no_fault_head _ _ Hf) as H0.
  pose proof (no_fault_tail _ _ Hf) as Hf1.
  pose proof (no_fault_head _ _ Hf1) as H1.
  pose proof (no_fault_tail _ _ Hf1) as Hf2.
  unfold process, try_except, reconcile, bind at 1.
  rewrite (execute_ok SELECT_projects [list_id p] s _ (working s) H0 eq_refl).
  unfold existing_row in Hx. rewrite Hx, Hd.
  unfold bind at 1. unfold datetime_now. unfold bind at 1.
  erewrite execute_ok; [| exact H1 | reflexivity].
  unfold bind at 1. rewrite log_changes_ok by exact Hf2.
  reflexivity.
Qed.

(** A [NULL] id never finds a row. *)
Lemma existing_row_null (d : database) : existing_row d None = None.
Proof.
  unfold existing_row. induction (projects d) as [|r l IH]; cbn; [easy|].
  destruct (r_list_id r); exact IH.
Qed.

(** *** What never changes and what is printed *)

Lemma execute_frame (q : sql) (params : list value) (s : state) :
  durable (snd (execute E q params s)) = durable s /\
  stdout (snd (execute E q params s)) = stdout s.
Proof.
  unfold execute, bind, sqlite3_call.
  destruct (raises E (n_calls s)); cbn; [auto|].
  destruct (run q params (working s)) as [[rows d]|e]; cbn; auto.
Qed.

(** The [except] clause makes one iteration end normally whatever
    happens in it. *)
Lemma process_returns (p : project) (s : state) :
  fst (process E p s) = Ok tt.
Proof.
  unfold process, try_except.
  destruct (reconcile E p s) as [[[]|e] s']; reflexivity.
Qed.

Lemma process_caught (p : project) (s : state) (e : exn) :
  fst (reconcile E p s) = Raise e ->
  process E p s =
  (Ok tt, put_line (ErrorProcessing (list_id p) e) (snd (reconcile E p s))).
Proof.
  unfold process, try_except.
  destruct (reconcile E p s) as [[[]|e'] s']; cbn; [discriminate|].
  intros H. now injection H as ->.
Qed.

Lemma for_each_cons {A} (x : A) (l : list A) (body : A -> M unit) (s : state) :
  fst (body x s) = Ok tt ->
  for_each (x :: l) body s = for_each l body (snd (body x s)).
Proof.
  cbn. unfold bind. destruct (body x s) as [[[]|e] s']; cbn; easy.
Qed.

Lemma loop_cons (p : project) (ps : list project) (s : state) :
  for_each (p :: ps) (process E) s =
  for_each ps (process E) (snd (process E p s)).
Proof. apply for_each_cons, process_returns. Qed.

Lemma loop_app (ps qs : list project) :
  forall s,
    for_each (ps ++ qs) (process E) s =
    for_each qs (process E) (snd (for_each ps (process E) s)).
Proof.
  induction ps as [|p ps IH]; intros s; [reflexivity|].
  rewrite <- app_comm_cons, !loop_cons. apply IH.
Qed.

Lemma loop_returns (ps : list project) :
  forall s, fst (for_each ps (process E) s) = Ok tt.
Proof.
  induction ps as [|p ps IH]; intros s; [reflexivity|].
  rewrite loop_cons. apply IH.
Qed.

(** The [try] body leaves the database file alone and prints exactly
    one line when it ends normally, none when it raises. *)
Lemma reconcile_effect (p : project) (s s' : state) (r : result unit) :
  reconcile E p s = (r, s') ->
  durable s' = durable s /\
  ((r = Ok tt /\ exists m, stdout s' = stdout s ++ [m]) \/
   (exists e, r = Raise e /\ stdout s' = stdout s)).
Proof.
  unfold reconcile. unfold bind at 1.
  pose proof (execute_frame SELECT_projects [list_id p] s) as [Fd Fo].
  destruct (execute E SELECT_projects [list_id p] s) as [[rows|e] s1];
    cbn in Fd, Fo; [|intros [= <- <-]; eauto].
  destruct (fetchone rows) as [existing|].
  - destruct (diff existing p) as [|c cs].
    + intros [= <- <-]. cbn. rewrite Fd, Fo. eauto.
    + unfold bind at 1. unfold datetime_now. unfold bind at 1.
      match goal with |- context [execute E UPDATE_projects ?ps ?s2] =>
        pose proof (execute_frame UPDATE_projects ps s2) as [Gd Go];
        destruct (execute E UPDATE_projects ps s2) as [[rows'|e] s3] end;
        cbn in Gd, Go; [|intros [= <- <-]; rewrite Gd, Go, Fd, Fo; eauto].
      unfold bind at 1.
      destruct (log_changes_prefix p (c :: cs) s3) as (j & _ & _ & Hd & Ho & _).
      destruct (for_each (c :: cs) (log_change E p) s3) as [[[]|e] s4];
        cbn in Hd, Ho; intros [= <- <-]; cbn;
        rewrite ?Hd, ?Ho, Gd, Go, Fd, Fo; eauto.
  - unfold bind at 1. unfold datetime_now. unfold bind at 1.
    match goal with |- context [execute E INSERT_projects ?ps ?s2] =>
      pose proof (execute_frame INSERT_projects ps s2) as [Gd Go];
      destruct (execute E INSERT_projects ps s2) as [[rows'|e] s3] end;
      cbn in Gd, Go; intros [= <- <-]; cbn; rewrite Gd, Go, Fd, Fo; eauto.
Qed.

(** One iteration: the database file is untouched and exactly one line
    is printed. *)
Lemma process_effect (p : project) (s : state) :
  durable (snd (process E p s)) = durable s /\
  exists m, stdout (snd (process E p s)) = stdout s ++ [m].
Proof.
  destruct (reconcile E p s) as [r s'] eqn:Hr.
  destruct (reconcile_effect p s s' r Hr) as [Hd [[-> [m Ho]]|(e & -> & Ho)]].
  - unfold process, try_except. rewrite Hr. cbn. eauto.
  - rewrite (process_caught p s e) by now rewrite Hr.
    rewrite Hr. cbn. rewrite Ho. eauto.
Qed.

Lemma loop_effect (ps : list project) :
  forall s,
    durable (snd (for_each ps (process E) s)) = durable s /\
    List.length (stdout (snd (for_each ps (process E) s))) =
      List.length (stdout s) + List.length ps.
Proof.
  induction ps as [|p ps IH]; intros s.
  - cbn. auto.
  - rewrite loop_cons. destruct (IH (snd (process E p s))) as [Hd Hl].
    destruct (process_effect p s) as [Hd' [m Ho]].
    rewrite Hd, Hl, Hd', Ho, length_app. cbn. split; [reflexivity|lia].
Qed.

End Facts.

(** * New records *)

(** C8: when the id of a record has no row in [projects] and the two
    statements of the insert path succeed, processing the record ends
    normally, appends exactly one row holding the record's id and five
    fields, leaves [changes] as it was, and reports the record as a new
    project. *)
Theorem new_id_gets_one_row_and_no_change
  (E : env) (p : project) (s : state) :
  no_fault E (n_calls s) 2 ->
  existing_row (working s) (list_id p) = None ->
  fst (process E p s) = Ok tt /\
  projects (working (snd (process E p s))) =
    projects (working s) ++ [new_row p (now E (n_now s))] /\
  changes (working (snd (process E p s))) = changes (working s) /\
  stdout (snd (process E p s)) = stdout s ++ [NewProjectAdded (title p)].
Proof.
  intros Hf Hx. rewrite (process_absent E p s Hf Hx). cbn. auto.
Qed.

Lemma new_id_gets_one_row_witness :
  projects (working (snd (process calm house (start empty_db)))) =
    [new_row house (stamp 0)] /\
  changes (working (snd (process calm house (start empty_db)))) = [].
Proof.
  destruct (new_id_gets_one_row_and_no_change calm house (start empty_db))
    as (_ & Hp & Hc & _).
  - intros i _. reflexivity.
  - reflexivity.
  - split; [exact Hp | exact Hc].
Defined.

(** * Records without an id *)

(** Ids as [parse_projects] derives them: an item without a title link
    gets [None], a link that is a lone slash gets the empty text, a
    listing link gets the path segment before the last slash, and a link
    without a slash has the item dropped. *)
Example extract_list_id_cases :
  extract_list_id None = Some None /\
  extract_list_id (Some "/") = Some (Some "") /\
  extract_list_id (Some "https://norac.co.ke/property/a1/") = Some (Some "a1") /\
  extract_list_id (Some "a1") = None.
Proof. repeat split. Qed.

(** C2, as stated, fails: a record whose id is [None] is not skipped.
    Against an empty store it is written to [projects] with a [NULL] id,
    the row is committed, and the line printed is the one of a new
    project. *)
Lemma record_without_id_is_stored :
  list_id no_link = None /\
  projects (durable (snd (save_projects calm [no_link] (start empty_db)))) =
    [new_row no_link (stamp 0)] /\
  stdout (snd (save_projects calm [no_link] (start empty_db))) =
    [NewProjectAdded "Plot"].
Proof. repeat split. Qed.

(** C2, amended: a record whose id is [None], or is the empty text with
    no row of that id in the store, takes the insert path like any new
    record: when its two statements succeed, one row with that id is
    appended, [changes] is left alone, the record is reported as a new
    project, and the loop goes on with the records that follow. *)
Theorem record_without_id_is_inserted
  (E : env) (p : project) (rest : list project) (s : state) :
  list_id p = None \/
  (list_id p = Some "" /\ existing_row (working s) (Some "") = None) ->
  no_fault E (n_calls s) 2 ->
  projects (working (snd (process E p s))) =
    projects (working s) ++ [new_row p (now E (n_now s))] /\
  r_list_id (new_row p (now E (n_now s))) = list_id p /\
  changes (working (snd (process E p s))) = changes (working s) /\
  stdout (snd (process E p s)) = stdout s ++ [NewProjectAdded (title p)] /\
  for_each (p :: rest) (process E) s =
    for_each rest (process E) (snd (process E p s)).
Proof.
  intros Hid Hf.
  assert (Hx : existing_row (working s) (list_id p) = None).
  { destruct Hid as [-> | [-> Hx]]; [apply existing_row_null | exact Hx]. }
  rewrite loop_cons, (process_absent E p s Hf Hx). cbn. auto.
Qed.

Lemma record_without_id_witness :
  projects (working (snd (process calm no_link (start house_db)))) =
    [house_row; new_row no_link (stamp 0)].
Proof.
  destruct (record_without_id_is_inserted calm no_link [] (start house_db))
    as (Hp & _).
  - left. reflexivity.
  - intros i _. reflexivity.
  - exact Hp.
Defined.

(** * Failures *)

Lemma scrape_and_save_returns (E : env) (s : state) :
  fst (scrape_and_save E s) = Ok tt.
Proof.
  unfold scrape_and_save. unfold bind at 1. unfold datetime_now.
  unfold bind at 1. unfold print at 1. unfold try_except.
  match goal with |- context [match ?m ?s1 with _ => _ end] =>
    destruct (m s1) as [[[]|e] s2] end; reflexivity.
Qed.

Lemma cycles_return (E : env) (n : nat) :
  forall s, fst (cycles E n s) = Ok tt.
Proof.
  induction n as [|n IH]; intros s; [reflexivity|].
  cbn [cycles]. unfold bind.
  pose proof (scrape_and_save_returns E s) as H.
  destruct (scrape_and_save E s) as [[[]|e] s1]; cbn in H;
    [apply IH | discriminate].
Qed.

(** Once the tables are set up, the program reaches every cycle. *)
Lemma main_returns (E : env) (n : nat) (s : state) :
  fst (setup_database E s) = Ok tt -> fst (main E n s) = Ok tt.
Proof.
  unfold main. unfold bind at 1.
  destruct (setup_database E s) as [[[]|e] s1]; cbn; [intros _|discriminate].
  unfold bind. pose proof (scrape_and_save_returns E s1) as H.
  destruct (scrape_and_save E s1) as [[[]|e] s2]; cbn in H;
    [apply cycles_return | discriminate].
Qed.

Lemma main_follows_setup (E : env) (n : nat) (s : state) :
  fst (main E n s) = fst (setup_database E s).
Proof.
  destruct (fst (setup_database E s)) as [[]|e] eqn:Hs.
  - now apply main_returns.
  - unfold main, bind.
    destruct (setup_database E s) as [[[]|e'] s1]; cbn in *; congruence.
Qed.

(** C7, as stated, fails: when the first database call of the program,
    the connect of [setup_database], fails, or its commit does, the
    program ends with that exception before any cycle has run and with
    nothing printed. *)
Lemma setup_failure_ends_the_program :
  fst (main (faulty 0) 2 (start empty_db)) = Raise OperationalError /\
  stdout (snd (main (faulty 0) 2 (start empty_db))) = [] /\
  fst (main (faulty 3) 2 (start empty_db)) = Raise OperationalError /\
  stdout (snd (main (faulty 3) 2 (start empty_db))) = [].
Proof. repeat split. Qed.

(** C7, amended: whatever fails while a record is processed, the
    iteration ends normally; the exception raised in the [try] body is
    printed as an error line naming the record's id; the records after it
    are processed from the state it left; neither one scrape cycle nor
    any number of cycles in a row ever raises, whatever the fetch, the
    parse and the database calls do.  The program as a whole ends with an
    exception exactly when [setup_database], which runs once before the
    first cycle and outside any [try], raises one: once it has returned,
    the initial cycle and every scheduled cycle are reached. *)
Theorem failures_are_caught (E : env) :
  (forall p s, fst (process E p s) = Ok tt) /\
  (forall p s e,
     fst (reconcile E p s) = Raise e ->
     stdout (snd (process E p s)) =
       stdout (snd (reconcile E p s)) ++ [ErrorProcessing (list_id p) e]) /\
  (forall before p after s,
     for_each (before ++ p :: after) (process E) s =
     for_each after (process E)
       (snd (process E p (snd (for_each before (process E) s))))) /\
  (forall ps s,
     fst (for_each ps (process E) s) = Ok tt /\
     List.length (stdout (snd (for_each ps (process E) s))) =
       List.length (stdout s) + List.length ps) /\
  (forall s, fst (scrape_and_save E s) = Ok tt) /\
  (forall n s, fst (cycles E n s) = Ok tt) /\
  (forall n s, fst (main E n s) = fst (setup_database E s)) /\
  (forall n s, fst (setup_database E s) = Ok tt -> fst (main E n s) = Ok tt).
Proof.
  repeat split.
  - apply process_returns.
  - intros p s e H. now rewrite (process_caught E p s e H).
  - intros before p after s. now rewrite loop_app, loop_cons.
  - apply loop_returns.
  - apply loop_effect.
  - apply scrape_and_save_returns.
  - intros n s. apply cycles_return.
  - intros n s. apply main_follows_setup.
  - intros n s. apply main_returns.
Qed.

(** * The transaction of a batch *)

Lemma connect_effect (E : env) (s : state) :
  durable (snd (connect E s)) = durable s.
Proof.
  unfold connect, bind, sqlite3_call. now destruct (raises E (n_calls s)).
Qed.

Lemma uncommitted_durable (E : env) (ps : list project) (s : state) :
  durable (snd (uncommitted E ps s)) = durable s.
Proof.
  unfold uncommitted, bind.
  pose proof (connect_effect E s) as Hc.
  destruct (connect E s) as [[[]|e] s1]; cbn in Hc; [|exact Hc].
  now rewrite (proj1 (loop_effect E ps s1)).
Qed.

Lemma bind_assoc {A B C} (m : M A) (f : A -> M B) (g : B -> M C) (s : state) :
  bind (bind m f) g s = bind m (fun x => bind (f x) g) s.
Proof. unfold bind. destruct (m s) as [[a|e] s']; reflexivity. Qed.

Lemma save_projects_split (E : env) (ps : list project) (s : state) :
  save_projects E ps s = (uncommitted E ps ;; commit E) s.
Proof. unfold save_projects, uncommitted. now rewrite bind_assoc. Qed.

(** C10: the database file is the same after any prefix of a batch has
    been processed without the commit; [save_projects] either ends
    normally with the file equal to what the connection held after the
    last record, or raises with the file as it was; and a record whose
    second change insert fails has its first change row committed with
    the batch all the same. *)
Theorem batch_is_one_transaction :
  (forall E ps k s,
     durable (snd (uncommitted E (firstn k ps) s)) = durable s) /\
  (forall E ps s,
     (fst (save_projects E ps s) = Ok tt /\
      durable (snd (save_projects E ps s)) =
        working (snd (uncommitted E ps s))) \/
     (fst (save_projects E ps s) <> Ok tt /\
      durable (snd (save_projects E ps s)) = durable s)) /\
  (List.length (diff house_row villa_closed) = 2 /\
   fst torn_run = Ok tt /\
   stdout (snd torn_run) = [ErrorProcessing (Some "a1") OperationalError] /\
   changes (durable (snd torn_run)) =
     firstn 1 (entries stamp villa_closed 1 0 (diff house_row villa_closed))).
Proof.
  split; [|split].
  - intros E ps k s. apply uncommitted_durable.
  - intros E ps s. rewrite save_projects_split. unfold bind.
    pose proof (uncommitted_durable E ps s) as Hd.
    destruct (uncommitted E ps s) as [[[]|e] s1]; cbn in Hd |- *.
    + unfold commit, bind, sqlite3_call.
      destruct (raises E (n_calls s1)); cbn.
      * right. split; [discriminate|exact Hd].
      * left. split; reflexivity.
    + right. split; [discriminate|exact Hd].
  - repeat split.
Qed.

(** * Updates are not atomic per record *)

(** C1, as stated, fails: [house_row] is stored, the incoming record
    differs from it in two fields, and the second insert into [changes]
    fails.  After the commit the change log holds one of the two entries:
    the record's writes were neither all applied nor all undone. *)
Lemma update_is_torn_by_a_failed_insert :
  existing_row house_db (list_id villa_closed) = Some house_row /\
  List.length (diff house_row villa_closed) = 2 /\
  fst torn_run = Ok tt /\
  List.length (changes (durable (snd torn_run))) = 1 /\
  changes (durable (snd torn_run)) <> changes house_db /\
  changes (durable (snd torn_run)) <>
    changes house_db ++ entries stamp villa_closed 1 0
                          (diff house_row villa_closed).
Proof. repeat split; discriminate. Qed.

Lemma first_fault_le (E : env) (k : nat) :
  forall n, first_fault E n k <= k.
Proof.
  induction k as [|k IH]; intros n; cbn; [lia|].
  destruct (raises E n); [lia|]. specialize (IH (S n)). lia.
Qed.

(** The logging loop under any faults: the rows written are exactly the
    entries whose insert ran before the first failing one. *)
Lemma log_changes_exact (E : env) (p : project) (cs : list change) :
  forall s,
    working (snd (for_each cs (log_change E p) s)) =
      mkDb (projects (working s))
        (changes (working s) ++
         firstn (first_fault E (n_calls s) (List.length cs))
           (entries (now E) p (n_now s)
              (List.length (changes (working s))) cs)) /\
    durable (snd (for_each cs (log_change E p) s)) = durable s /\
    stdout (snd (for_each cs (log_change E p) s)) = stdout s /\
    (first_fault E (n_calls s) (List.length cs) = List.length cs ->
     fst (for_each cs (log_change E p) s) = Ok tt) /\
    (first_fault E (n_calls s) (List.length cs) < List.length cs ->
     fst (for_each cs (log_change E p) s) = Raise OperationalError).
Proof.
  induction cs as [|c cs IH]; intros s.
  - cbn. rewrite app_nil_r. destruct (working s).
    repeat split; auto. intros H. lia.
  - cbn [for_each List.length first_fault]. unfold bind.
    destruct (raises E (n_calls s)) eqn:Hr.
    + rewrite (log_change_fails E p c s Hr). cbn.
      rewrite app_nil_r. destruct (working s).
      repeat split; auto. intros [=].
    + rewrite (log_change_ok E p c s Hr).
      match goal with |- context [for_each cs _ ?s1] =>
        destruct (IH s1) as (Hw & Hd & Ho & Hok & Hno) end.
      rewrite Hw, Hd, Ho. cbn in *.
      rewrite <- app_assoc, length_app, Nat.add_1_r in *. cbn.
      split; [reflexivity|]. split; [reflexivity|]. split; [reflexivity|].
      split.
      * intros H. apply Hok. lia.
      * intros H. apply Hno. lia.
Qed.

(** C1, amended: for a record whose id has a row and whose change set is
    not empty, the statements of the update path run one after the other
    in the transaction of the batch and a failure undoes none of those
    that ran before it: the rows added to [changes] are exactly the
    entries whose insert ran before the first call of the record that
    fails (none when the [SELECT] or the [UPDATE] fails, all when nothing
    fails), what the [UPDATE] did to [projects] stays whatever fails
    after it, and the database file is not written before the commit;
    the record is reported as updated when all entries are written and as
    an error otherwise. *)
Theorem update_writes_a_prefix_of_its_entries
  (E : env) (p : project) (s : state) (existing : project_row)
  (c : change) (cs : list change) :
  existing_row (working s) (list_id p) = Some existing ->
  diff existing p = c :: cs ->
  entries_written E (n_calls s) (List.length (c :: cs))
    <= List.length (c :: cs) /\
  changes (working (snd (process E p s))) =
    changes (working s) ++
    firstn (entries_written E (n_calls s) (List.length (c :: cs)))
      (entries (now E) p (S (n_now s))
         (List.length (changes (working s))) (c :: cs)) /\
  (raises E (n_calls s) = false ->
   raises E (S (n_calls s)) = false ->
   forall rows d1,
     run UPDATE_projects
       (map (fun f => Some (get p f)) fields ++
        [list_id p; Some (now E (n_now s))]) (working s) = Ok (rows, d1) ->
     projects (working (snd (process E p s))) = projects d1) /\
  durable (snd (process E p s)) = durable s /\
  (entries_written E (n_calls s) (List.length (c :: cs))
     = List.length (c :: cs) ->
   stdout (snd (process E p s)) =
     stdout s ++ [ProjectUpdated (title p) (List.length (c :: cs))]) /\
  (entries_written E (n_calls s) (List.length (c :: cs))
     < List.length (c :: cs) ->
   stdout (snd (process E p s)) =
     stdout s ++ [ErrorProcessing (list_id p) OperationalError]).
Proof.
  intros Hx Hd. unfold existing_row in Hx.
  split.
  { unfold entries_written.
    destruct (raises E (n_calls s)); [lia|].
    destruct (raises E (S (n_calls s))); [lia|]. apply first_fault_le. }
  remember (process E p s) as res eqn:Hres.
  unfold process, try_except, reconcile in Hres. unfold bind at 1 in Hres.
  unfold entries_written.
  destruct (raises E (n_calls s)) eqn:H0.
  { rewrite (execute_fails E _ _ s H0) in Hres. subst res. cbn.
    rewrite app_nil_r. repeat split; auto; discriminate. }
  rewrite (execute_ok E SELECT_projects [list_id p] s _ (working s) H0 eq_refl)
    in Hres.
  rewrite Hx, Hd in Hres.
  unfold bind at 1 in Hres. unfold datetime_now in Hres.
  unfold bind at 1 in Hres.
  destruct (raises E (S (n_calls s))) eqn:H1.
  { rewrite execute_fails in Hres by exact H1. subst res. cbn.
    rewrite app_nil_r. repeat split; auto; discriminate. }
  erewrite execute_ok in Hres; [| exact H1 | reflexivity].
  unfold bind at 1 in Hres.
  match type of Hres with context [for_each (c :: cs) _ ?s3] =>
    destruct (log_changes_exact E p (c :: cs) s3)
      as (Hw & Hdu & Ho & Hok & Hno);
    destruct (for_each (c :: cs) (log_change E p) s3) as [[[]|e] s4] end;
    cbn [snd fst] in Hw, Hdu, Ho, Hok, Hno;
    cbn [n_calls n_now working durable stdout set_working tick_calls
         tick_now projects changes] in Hw, Hdu, Ho, Hok, Hno;
    subst res;
    cbn [snd fst print put_line working durable stdout];
    rewrite Hw, Hdu, Ho; cbn [changes projects].
  - split; [reflexivity|]. split.
    { intros _ _ rows d1 [= _ <-]. reflexivity. }
    split; [reflexivity|]. split; [reflexivity|].
    intros Hlt. specialize (Hno Hlt). discriminate.
  - split; [reflexivity|]. split.
    { intros _ _ rows d1 [= _ <-]. reflexivity. }
    split; [reflexivity|]. split.
    + intros Heq. specialize (Hok Heq). discriminate.
    + intros Hlt. specialize (Hno Hlt). now injection Hno as ->.
Qed.

Lemma update_writes_a_prefix_witness :
  changes (working (snd (process (faulty 3) villa_closed (start house_db)))) =
    [mkChangeRow 1 (Some "a1") (Some "title") (Some "House") (Some "Villa")
       (Some (stamp 1))] /\
  stdout (snd (process (faulty 3) villa_closed (start house_db))) =
    [ErrorProcessing (Some "a1") OperationalError].
Proof.
  destruct (update_writes_a_prefix_of_its_entries (faulty 3) villa_closed
              (start house_db) house_row
              (mkChange "title" (Some "House") "Villa")
              [mkChange "status" (Some "Open") "Closed"] eq_refl eq_refl)
    as (_ & Hc & _ & _ & _ & Ho).
  split; [exact Hc|]. apply Ho. cbn. lia.
Defined.

(** * Timestamps *)

Lemma no_fault_weaken (E : env) (n k k' : nat) :
  k' <= k -> no_fault E n k -> no_fault E n k'.
Proof. intros Hk H i Hi. apply H. lia. Qed.

Lemma diff_length_le (r : project_row) (p : project) :
  List.length (diff r p) <= 5.
Proof.
  unfold diff, fields. cbn [flat_map]. rewrite !length_app. unfold compare.
  repeat match goal with |- context [if ?b then _ else _] => destruct b end;
    cbn; lia.
Qed.

Lemma entries_nth (now : nat -> datetime) (p : project) (cs : list change) :
  forall n k i c,
    nth_error (entries now p n k cs) i = Some c ->
    c_change_date c = Some (now (n + i)) /\ c_list_id c = list_id p.
Proof.
  induction cs as [|c0 cs IH]; intros n k i c H.
  - destruct i; discriminate.
  - destruct i as [|i]; cbn in H.
    + injection H as <-. cbn. now rewrite Nat.add_0_r.
    + apply IH in H. now rewrite Nat.add_succ_r.
Qed.

(** C6, as stated, fails: the two Change Entries written for one record
    carry two different dates, so they cannot both equal one timestamp of
    the record. *)
Lemma change_dates_differ_within_a_record :
  map c_list_id
    (changes (durable (snd (save_projects calm [villa_closed]
                              (start house_db))))) =
    [Some "a1"; Some "a1"] /\
  map c_change_date
    (changes (durable (snd (save_projects calm [villa_closed]
                              (start house_db))))) =
    [Some (stamp 1); Some (stamp 2)] /\
  stamp 1 <> stamp 2.
Proof. repeat split. discriminate. Qed.

(** C6, amended: the timestamps written are readings of the clock taken
    as each statement is sent.  When no statement fails, a newly created
    row has [last_updated] equal to the reading taken for its insert, and
    the i-th Change Entry written for a record has [change_date] equal to
    the i-th reading after the one taken for the update. *)
Theorem timestamps_are_clock_readings (E : env) (p : project) (s : state) :
  no_fault E (n_calls s) 7 ->
  (existing_row (working s) (list_id p) = None ->
   exists r,
     projects (working (snd (process E p s))) =
       projects (working s) ++ [r] /\
     r_last_updated r = Some (now E (n_now s))) /\
  (forall i c,
     nth_error (changes (working (snd (process E p s))))
       (List.length (changes (working s)) + i) = Some c ->
     c_list_id c = list_id p /\
     c_change_date c = Some (now E (S (n_now s) + i))).
Proof.
  intros Hf. split.
  - intros Hx.
    rewrite (process_absent E p s (no_fault_weaken E _ 7 2 ltac:(lia) Hf) Hx).
    cbn. eauto.
  - intros i c.
    assert (Hnone : nth_error (changes (working s))
                      (List.length (changes (working s)) + i) = Some c ->
                    c_list_id c = list_id p /\
                    c_change_date c = Some (now E (S (n_now s) + i))).
    { intros H.
      assert (Hlt : nth_error (changes (working s))
                      (List.length (changes (working s)) + i) <> None)
        by congruence.
      apply nth_error_Some in Hlt. lia. }
    destruct (existing_row (working s) (list_id p)) as [existing|] eqn:Hx.
    + destruct (diff existing p) as [|c0 cs] eqn:Hd.
      * rewrite (process_unchanged E p s existing
                   (no_fault_head E _ _ Hf) Hx Hd). exact Hnone.
      * pose proof (diff_length_le existing p) as Hle. rewrite Hd in Hle.
        assert (Hf' : no_fault E (n_calls s) (2 + List.length (c0 :: cs))).
        { apply (no_fault_weaken E _ 7); [lia | exact Hf]. }
        rewrite (process_changed E p s existing c0 cs Hf' Hx Hd).
        cbn [snd working changes].
        rewrite nth_error_app2 by lia.
        replace (List.length (changes (working s)) + i -
                 List.length (changes (working s))) with i by lia.
        intros H. apply entries_nth in H. tauto.
    + rewrite (process_absent E p s
                 (no_fault_weaken E _ 7 2 ltac:(lia) Hf) Hx). exact Hnone.
Qed.

Lemma timestamps_are_clock_readings_witness :
  option_map c_change_date
    (nth_error (changes (working (snd (process calm villa_closed
                                         (start house_db))))) 1) =
    Some (Some (stamp 2)).
Proof.
  destruct (nth_error (changes (working (snd (process calm villa_closed
                                                (start house_db))))) 1)
    as [c|] eqn:H.
  - cbn. f_equal.
    apply (timestamps_are_clock_readings calm villa_closed (start house_db)
             (fun _ _ => eq_refl)) with (i := 1).
    exact H.
  - discriminate H.
Defined.

(** * The comparison of the tracked fields *)

Lemma value_eqb_eq (a b : value) : value_eqb a b = true <-> a = b.
Proof.
  destruct a as [x|], b as [y|]; cbn; try easy.
  rewrite String.eqb_eq. split; congruence.
Qed.

Lemma sql_eq_eq (a b : value) : sql_eq a b = true -> a = b.
Proof.
  destruct a as [x|], b as [y|]; cbn; try easy.
  rewrite String.eqb_eq. congruence.
Qed.

Lemma sql_eq_refl (x : string) : sql_eq (Some x) (Some x) = true.
Proof. cbn. apply String.eqb_refl. Qed.

(** The comparison yields one entry for each tracked field whose stored
    value is not the incoming text, in the order of [fields], with the
    stored value as [old_value] and the incoming text as [new_value]. *)
Lemma diff_spec (r : project_row) (p : project) :
  diff r p =
  map (fun f => mkChange (key f) (column r f) (get p f))
    (filter (fun f => negb (value_eqb (column r f) (Some (get p f)))) fields).
Proof.
  unfold diff, fields. cbn [flat_map filter]. unfold compare.
  repeat match goal with |- context [value_eqb ?a ?b] =>
    destruct (value_eqb a b) end; reflexivity.
Qed.

(** The [UPDATE] leaves alone every row whose id is not the text of the
    clock reading. *)
Lemma update_misses (p : project) (t : datetime) (rows : list project_row) :
  (forall r, In r rows -> r_list_id r <> Some t) ->
  map (updated_row p t) rows = rows.
Proof.
  intros H. rewrite <- (map_id rows) at 2. apply map_ext_in.
  intros r Hr. unfold updated_row.
  destruct (sql_eq (r_list_id r) (Some t)) eqn:Heq; [|reflexivity].
  apply sql_eq_eq in Heq. now apply H in Hr.
Qed.

(** C3 at [house_db] and [house_closed]: the stored row and the incoming
    record differ in [status] alone; one Change Entry with the stored and
    the incoming value is written and the record is reported as updated
    with one change, but the row of [a1] is the same as before the run:
    the [UPDATE] was sent with the clock reading where the id belongs and
    found no row. *)
Lemma one_field_changed_and_row_not_updated :
  existing_row house_db (list_id house_closed) = Some house_row /\
  diff house_row house_closed = [mkChange "status" (Some "Open") "Closed"] /\
  changes (durable (snd (save_projects calm [house_closed] (start house_db)))) =
    [mkChangeRow 1 (Some "a1") (Some "status") (Some "Open") (Some "Closed")
       (Some (stamp 1))] /\
  stdout (snd (save_projects calm [house_closed] (start house_db))) =
    [ProjectUpdated "House" 1] /\
  projects (durable (snd (save_projects calm [house_closed] (start house_db)))) =
    [house_row] /\
  r_status house_row = Some "Open".
Proof. repeat split. Qed.

(** C5 at two batches in a row, [house] and then [house_closed], from an
    empty store: a single row of [a1] exists after both, but it still
    holds the fields of the first record, not those of the most recent
    one. *)
Lemma row_keeps_the_first_sighting :
  let s1 := snd (save_projects calm [house] (start empty_db)) in
  let s2 := snd (save_projects calm [house_closed] s1) in
  projects (durable s1) = [new_row house (stamp 0)] /\
  projects (durable s2) = [new_row house (stamp 0)] /\
  stdout s2 = [NewProjectAdded "House"; ProjectUpdated "House" 1] /\
  existing_row (durable s2) (Some "a1") <>
    Some (new_row house_closed (stamp 1)).
Proof. repeat split. discriminate. Qed.

(** C9 at the batch [house; house_closed] from an empty store: the
    records are processed in order and the second is compared with the
    row written for the first (one entry, [Open] to [Closed]), but the
    row left in the store is the one of the first occurrence. *)
Lemma duplicate_id_keeps_the_first_occurrence :
  let s' := snd (save_projects calm [house; house_closed] (start empty_db)) in
  stdout s' = [NewProjectAdded "House"; ProjectUpdated "House" 1] /\
  changes (durable s') =
    [mkChangeRow 1 (Some "a1") (Some "status") (Some "Open") (Some "Closed")
       (Some (stamp 2))] /\
  projects (durable s') = [new_row house (stamp 0)] /\
  r_status (new_row house (stamp 0)) = Some "Open" /\
  status house_closed = "Closed".
Proof. repeat split. Qed.

(** * Running a batch twice *)

Lemma diff_nil (r : project_row) (p : project) :
  diff r p = [] <-> same_fields r p.
Proof.
  unfold same_fields, diff, fields. cbn [flat_map]. unfold compare.
  change (column r Title) with (r_title r).
  change (column r Location) with (r_location r).
  change (column r Budget) with (r_budget r).
  change (column r Status) with (r_status r).
  change (column r Description) with (r_description r).
  cbn [get].
  split.
  - intros H.
    repeat match type of H with context [value_eqb ?a ?b] =>
      let Hv := fresh "Hv" in
      destruct (value_eqb a b) eqn:Hv; [apply value_eqb_eq in Hv|discriminate H]
    end.
    auto.
  - intros (-> & -> & -> & -> & ->). cbn. now rewrite !String.eqb_refl.
Qed.

Section Twice.

Variable E : env.
Hypothesis calm_env : forall n, raises E n = false.

Lemma calm_no_fault (n k : nat) : no_fault E n k.
Proof. intros i _. apply calm_env. Qed.

Lemma connect_calm (s : state) :
  connect E s = (Ok tt, set_working (durable s) (tick_calls s)).
Proof.
  unfold connect, bind. now rewrite sqlite3_call_ok by apply calm_env.
Qed.

Lemma commit_calm (s : state) :
  commit E s = (Ok tt, set_durable (working s) (tick_calls s)).
Proof.
  unfold commit, bind. now rewrite sqlite3_call_ok by apply calm_env.
Qed.

Lemma save_projects_calm (ps : list project) (s : state) :
  save_projects E ps s =
  (Ok tt,
   let s' := snd (for_each ps (process E)
                    (set_working (durable s) (tick_calls s))) in
   set_durable (working s') (tick_calls s')).
Proof.
  unfold save_projects. unfold bind at 1. rewrite connect_calm.
  unfold bind at 1.
  pose proof (loop_returns E ps (set_working (durable s) (tick_calls s))) as H.
  destruct (for_each ps (process E) (set_working (durable s) (tick_calls s)))
    as [[[]|e] s1]; [|discriminate H].
  now rewrite commit_calm.
Qed.

(** A loop over records that all find their row with their own fields
    only reads. *)
Lemma loop_settled (ps : list project) :
  forall s,
    (forall p, In p ps ->
       exists r, existing_row (working s) (list_id p) = Some r /\
                 diff r p = []) ->
    for_each ps (process E) s =
    (Ok tt,
     mkState (durable s) (working s) (n_calls s + List.length ps) (n_now s)
       (n_fetch s)
       (stdout s ++ map (fun p => NoChangesDetected (title p)) ps)).
Proof.
  induction ps as [|p ps IH]; intros s H.
  - cbn. unfold ret. rewrite app_nil_r, Nat.add_0_r. now destruct s.
  - rewrite loop_cons.
    destruct (H p (or_introl eq_refl)) as (r & Hx & Hd).
    rewrite (process_unchanged E p s r (calm_env _) Hx Hd). cbn [snd].
    rewrite IH by (intros q Hq; cbn; apply H; now right).
    cbn. rewrite <- app_assoc, Nat.add_succ_r. reflexivity.
Qed.

Lemma existing_row_grows (d : database) (id : value) (r x : project_row) :
  existing_row d id = Some r ->
  existing_row (mkDb (projects d ++ [x]) (changes d)) id = Some r.
Proof.
  unfold existing_row, fetchone. cbn. rewrite filter_app.
  destruct (filter _ (projects d)); [discriminate|auto].
Qed.

Lemma existing_row_found (d : database) (id : value) (r : project_row) :
  existing_row d id = Some r ->
  In r (projects d) /\ sql_eq (r_list_id r) id = true.
Proof.
  unfold existing_row, fetchone. intros H.
  apply filter_In with (f := fun r => sql_eq (r_list_id r) id).
  destruct (filter _ (projects d)) as [|r0 l]; [discriminate|].
  injection H as ->. now left.
Qed.

Variable batch : list project.
Hypothesis batch_identified : identified batch.
Hypothesis batch_coherent : coherent batch.

(** One record of the batch, processed in a store that agrees with the
    batch: the store still agrees, the record has a row, and rows found
    before are found after. *)
Lemma process_settles (p : project) (s : state) :
  In p batch ->
  agree batch (working s) ->
  agree batch (working (snd (process E p s))) /\
  (exists r, existing_row (working (snd (process E p s))) (list_id p) = Some r) /\
  (forall id r,
     existing_row (working s) id = Some r ->
     existing_row (working (snd (process E p s))) id = Some r).
Proof.
  intros Hp Ha.
  destruct (existing_row (working s) (list_id p)) as [r|] eqn:Hx.
  - destruct (existing_row_found _ _ _ Hx) as [Hin Heq].
    pose proof (proj2 (diff_nil r p) (Ha p r Hp Hin Heq)) as Hd.
    rewrite (process_unchanged E p s r (calm_env _) Hx Hd). cbn.
    split; [exact Ha|]. split; [eauto|auto].
  - rewrite (process_absent E p s (calm_no_fault _ _) Hx). cbn [snd working].
    split; [|split].
    + intros q r Hq Hr Heq. cbn in Hr. apply in_app_or in Hr.
      destruct Hr as [Hr|[<-|[]]]; [now apply (Ha q r)|].
      cbn in Heq. apply sql_eq_eq in Heq.
      rewrite (batch_coherent p q Hp Hq Heq). repeat split.
    + exists (new_row p (now E (n_now s))).
      unfold existing_row in *. cbn. rewrite filter_app. cbn.
      destruct (list_id p) as [x|] eqn:Hid;
        [|now apply batch_identified in Hp].
      rewrite sql_eq_refl.
      destruct (filter _ (projects (working s))); [reflexivity|discriminate].
    + intros id r Hr.
      apply (existing_row_grows (working s) id r _ Hr).
Qed.

Lemma loop_settles (ps : list project) :
  forall s,
    (forall p, In p ps -> In p batch) ->
    agree batch (working s) ->
    agree batch (working (snd (for_each ps (process E) s))) /\
    (forall p, In p ps ->
       exists r,
         existing_row (working (snd (for_each ps (process E) s))) (list_id p)
           = Some r) /\
    (forall id r,
       existing_row (working s) id = Some r ->
       existing_row (working (snd (for_each ps (process E) s))) id = Some r).
Proof.
  induction ps as [|p ps IH]; intros s Hsub Ha.
  - cbn. split; [exact Ha|]. split; [intros p []|auto].
  - rewrite loop_cons.
    destruct (process_settles p s (Hsub p (or_introl eq_refl)) Ha)
      as (Ha1 & (r1 & Hr1) & Hm1).
    destruct (IH (snd (process E p s))
                (fun q Hq => Hsub q (or_intror Hq)) Ha1)
      as (Ha2 & Hr2 & Hm2).
    split; [exact Ha2|]. split.
    + intros q [<-|Hq]; [eauto|apply Hr2, Hq].
    + intros id r Hr. apply Hm2, Hm1, Hr.
Qed.

(** The second of two runs of the batch only reads. *)
Lemma second_run (s : state) :
  agree batch (durable s) ->
  let s1 := snd (save_projects E batch s) in
  let s2 := snd (save_projects E batch s1) in
  fst (save_projects E batch s1) = Ok tt /\
  working (snd (uncommitted E batch s1)) = durable s1 /\
  durable s2 = durable s1 /\
  stdout s2 =
    stdout s1 ++ map (fun p => NoChangesDetected (title p)) batch.
Proof.
  intros Ha. cbn zeta.
  rewrite (save_projects_calm batch s). cbn [snd].
  set (s0 := set_working (durable s) (tick_calls s)).
  destruct (loop_settles batch s0 (fun p H => H) Ha) as (Ha1 & Hr1 & _).
  set (sL := snd (for_each batch (process E) s0)) in *.
  set (s1 := set_durable (working sL) (tick_calls sL)).
  assert (Hloop :
    for_each batch (process E) (set_working (durable s1) (tick_calls s1)) =
    (Ok tt,
     mkState (durable s1) (durable s1) (S (n_calls s1) + List.length batch)
       (n_now s1) (n_fetch s1)
       (stdout s1 ++ map (fun p => NoChangesDetected (title p)) batch))).
  { rewrite loop_settled; [reflexivity|].
    intros p Hp. destruct (Hr1 p Hp) as (r & Hr). exists r.
    split; [exact Hr|].
    destruct (existing_row_found _ _ _ Hr) as [Hin Heq].
    apply diff_nil. now apply (Ha1 p r). }
  rewrite (save_projects_calm batch s1). cbn zeta. rewrite Hloop.
  unfold uncommitted. unfold bind at 1. rewrite connect_calm, Hloop.
  repeat split.
Qed.

End Twice.

(** C4, as stated, fails: the batch [no_link], run twice in a row from an
    empty store, is written again by the second run, which adds a second
    row and reports a new project instead of an unchanged one. *)
Lemma second_run_inserts_again :
  let s1 := snd (save_projects calm [no_link] (start empty_db)) in
  let s2 := snd (save_projects calm [no_link] s1) in
  projects (durable s1) = [new_row no_link (stamp 0)] /\
  projects (durable s2) =
    [new_row no_link (stamp 0); new_row no_link (stamp 1)] /\
  stdout s2 = stdout s1 ++ [NewProjectAdded "Plot"].
Proof. repeat split. Qed.

(** C4, amended: when no database call fails, every record of the batch
    has an id, records of the batch with the same id are equal, and every
    row that carries an id of the batch already carries that record's
    fields (in particular when the ids are new to the store), the second
    of two runs of the batch in a row ends normally, leaves the
    connection's tables and the database file as the first run left them,
    and reports every record as unchanged. *)
Theorem second_run_changes_nothing
  (E : env) (ps : list project) (s : state) :
  (forall n, raises E n = false) ->
  identified ps ->
  coherent ps ->
  agree ps (durable s) ->
  fst (save_projects E ps (snd (save_projects E ps s))) = Ok tt /\
  working (snd (uncommitted E ps (snd (save_projects E ps s)))) =
    durable (snd (save_projects E ps s)) /\
  durable (snd (save_projects E ps (snd (save_projects E ps s)))) =
    durable (snd (save_projects E ps s)) /\
  stdout (snd (save_projects E ps (snd (save_projects E ps s)))) =
    stdout (snd (save_projects E ps s)) ++
    map (fun p => NoChangesDetected (title p)) ps.
Proof.
  intros Hcalm Hid Hco Ha. exact (second_run E Hcalm ps Hid Hco s Ha).
Qed.

Lemma second_run_changes_nothing_witness :
  durable (snd (save_projects calm [house; house]
                  (snd (save_projects calm [house; house] (start empty_db))))) =
    mkDb [new_row house (stamp 0)] [] /\
  stdout (snd (save_projects calm [house; house]
                 (snd (save_projects calm [house; house] (start empty_db))))) =
    [NewProjectAdded "House"; NoChangesDetected "House";
     NoChangesDetected "House"; NoChangesDetected "House"].
Proof.
  destruct (second_run_changes_nothing calm [house; house] (start empty_db))
    as (_ & _ & Hd & Ho).
  - reflexivity.
  - intros p [<-|[<-|[]]]; discriminate.
  - intros p q [<-|[<-|[]]] [<-|[<-|[]]] _; reflexivity.
  - intros p r _ [].
  - rewrite Hd, Ho. split; reflexivity.
Defined.

(** * One row per id *)

Section Keeps.

Variable P : state -> Prop.

Lemma keeps_ret {A} (a : A) : keeps P (ret a).
Proof. intros s H. exact H. Qed.

Lemma keeps_bind {A B} (m : M A) (k : A -> M B) :
  keeps P m -> (forall a, keeps P (k a)) -> keeps P (bind m k).
Proof.
  intros Hm Hk s H. unfold bind. specialize (Hm s H).
  destruct (m s) as [[a|e] s1]; cbn in *; [now apply Hk|exact Hm].
Qed.

Lemma keeps_try_except {A} (m : M A) (h : exn -> M A) :
  keeps P m -> (forall e, keeps P (h e)) -> keeps P (try_except m h).
Proof.
  intros Hm Hh s H. unfold try_except. specialize (Hm s H).
  destruct (m s) as [[a|e] s1]; cbn in *; [exact Hm|now apply Hh].
Qed.

Lemma keeps_for_each {A} (l : list A) (body : A -> M unit) :
  (forall x, keeps P (body x)) -> keeps P (for_each l body).
Proof.
  intros Hb. induction l as [|x l IH]; cbn [for_each].
  - apply keeps_ret.
  - apply keeps_bind; [apply Hb|intros _; exact IH].
Qed.

End Keeps.

Lemma ids_app (l1 l2 : list project_row) : ids (l1 ++ l2) = ids l1 ++ ids l2.
Proof. apply flat_map_app. Qed.

Lemma ids_map (f : project_row -> project_row) (rows : list project_row) :
  (forall r, r_list_id (f r) = r_list_id r) ->
  ids (map f rows) = ids rows.
Proof.
  intros H. unfold ids. induction rows as [|r rows IH]; [reflexivity|].
  cbn. now rewrite H, IH.
Qed.

Lemma no_conflict_fresh (i : string) (rows : list project_row) :
  existsb (fun r => sql_eq (r_list_id r) (Some i)) rows = false ->
  ~ In i (ids rows).
Proof.
  induction rows as [|r rows IH]; cbn; [tauto|].
  intros H. apply orb_false_elim in H as [Hr Hrows].
  fold (ids rows). intros Hin. apply in_app_or in Hin as [Hin|Hin].
  - destruct (r_list_id r) as [x|]; [|destruct Hin].
    destruct Hin as [->|[]]. cbn in Hr. now rewrite String.eqb_refl in Hr.
  - now apply IH.
Qed.

(** No statement of [save_projects] gives a second row to an id. *)
Lemma run_unique (q : sql) (params : list value) (d d' : database)
  (rows : list project_row) :
  run q params d = Ok (rows, d') ->
  NoDup (ids (projects d)) -> NoDup (ids (projects d')).
Proof.
  destruct q, params as [|v1 [|v2 [|v3 [|v4 [|v5 [|v6 [|v7 [|v8 l]]]]]]]];
    cbn; try discriminate.
  - now intros [= _ <-].
  - destruct (existsb _ (projects d)) eqn:Hex; [discriminate|].
    intros [= _ <-] Hd. cbn. rewrite ids_app. apply NoDup_app; [exact Hd| |].
    + cbn. destruct v1; repeat constructor. intros [].
    + intros a Ha. cbn. destruct v1 as [i|]; [|tauto].
      intros [->|[]]. now apply (no_conflict_fresh _ _ Hex).
  - intros [= _ <-] Hd. cbn. rewrite ids_map; [exact Hd|].
    intros r. now destruct (sql_eq (r_list_id r) v7).
  - now intros [= _ <-].
Qed.

Section Unique.

Variable E : env.

Lemma execute_unique (q : sql) (params : list value) :
  keeps unique_ids (execute E q params).
Proof.
  intros s [Hd Hw]. unfold execute, bind, sqlite3_call.
  destruct (raises E (n_calls s)); cbn; [now split|].
  destruct (run q params (working s)) as [[rows d]|e] eqn:Hq; cbn;
    [|now split].
  split; [exact Hd|]. exact (run_unique q params _ _ _ Hq Hw).
Qed.

Lemma datetime_now_unique : keeps unique_ids (datetime_now E).
Proof. intros s H. exact H. Qed.

Lemma print_unique (m : message) : keeps unique_ids (print m).
Proof. intros s H. exact H. Qed.

Lemma process_unique (p : project) : keeps unique_ids (process E p).
Proof.
  unfold process, reconcile, log_change.
  apply keeps_try_except; [|intros e; apply print_unique].
  apply keeps_bind; [apply execute_unique|]. intros rows.
  destruct (fetchone rows) as [existing|].
  - destruct (diff existing p) as [|c cs]; [apply print_unique|].
    apply keeps_bind; [apply datetime_now_unique|]. intros t.
    apply keeps_bind; [apply execute_unique|]. intros _.
    apply keeps_bind; [|intros _; apply print_unique].
    apply keeps_for_each. intros c'.
    apply keeps_bind; [apply datetime_now_unique|]. intros t'.
    apply keeps_bind; [apply execute_unique|]. intros _. apply keeps_ret.
  - apply keeps_bind; [apply datetime_now_unique|]. intros t.
    apply keeps_bind; [apply execute_unique|]. intros _. apply print_unique.
Qed.

Lemma save_projects_unique (ps : list project) :
  keeps unique_ids (save_projects E ps).
Proof.
  unfold save_projects, connect, commit.
  apply keeps_bind.
  { apply keeps_bind; [|intros _ s [Hd _]; now split].
    intros s H. unfold sqlite3_call. now destruct (raises E (n_calls s)). }
  intros _. apply keeps_bind.
  { apply keeps_for_each, process_unique. }
  intros _. apply keeps_bind; [|intros _ s [_ Hw]; now split].
  intros s H. unfold sqlite3_call. now destruct (raises E (n_calls s)).
Qed.

Lemma scrape_and_save_unique : keeps unique_ids (scrape_and_save E).
Proof.
  unfold scrape_and_save, fetch_projects, parse_projects.
  apply keeps_bind; [apply datetime_now_unique|]. intros t.
  apply keeps_bind; [apply print_unique|]. intros _.
  apply keeps_try_except; [|intros e; apply print_unique].
  apply keeps_bind.
  { intros s H. now destruct (fetch E (n_fetch s)). }
  intros html. apply keeps_bind.
  { destruct (parse E html); intros s H; exact H. }
  intros ps. apply keeps_bind; [apply save_projects_unique|].
  intros _. apply print_unique.
Qed.

Lemma cycles_unique (n : nat) : keeps unique_ids (cycles E n).
Proof.
  induction n as [|n IH]; cbn [cycles]; [apply keeps_ret|].
  apply keeps_bind; [apply scrape_and_save_unique|intros _; exact IH].
Qed.

End Unique.


(** X2: if no id is carried by two rows before, none is after any batch
    and after any number of scrape cycles, whatever fails on the way. *)
Theorem one_row_per_id (E : env) (ps : list project) (n : nat) (s : state) :
  unique_ids s ->
  unique_ids (snd (save_projects E ps s)) /\
  unique_ids (snd (cycles E n s)).
Proof.
  intros H. split; [now apply save_projects_unique|now apply cycles_unique].
Qed.

Lemma one_row_per_id_witness :
  unique_ids (snd (save_projects calm [house; house_closed; no_link; no_link]
                     (start empty_db))).
Proof.
  apply (one_row_per_id calm [house; house_closed; no_link; no_link] 0
           (start empty_db)).
  split; constructor.
Defined.

(** X3: on the update path, when no statement fails and no stored id is
    the text of the clock reading taken for the [UPDATE], the table
    [projects] is left exactly as it was, while the record is reported as
    updated. *)
Theorem update_leaves_projects_unchanged
  (E : env) (p : project) (s : state) (existing : project_row)
  (c : change) (cs : list change) :
  no_fault E (n_calls s) (2 + List.length (c :: cs)) ->
  existing_row (working s) (list_id p) = Some existing ->
  diff existing p = c :: cs ->
  (forall r, In r (projects (working s)) ->
             r_list_id r <> Some (now E (n_now s))) ->
  projects (working (snd (process E p s))) = projects (working s) /\
  stdout (snd (process E p s)) =
    stdout s ++ [ProjectUpdated (title p) (List.length (c :: cs))].
Proof.
  intros Hf Hx Hd Hid.
  rewrite (process_changed E p s existing c cs Hf Hx Hd). cbn.
  split; [now apply update_misses|reflexivity].
Qed.

Lemma update_leaves_projects_unchanged_witness :
  projects (working (snd (process calm house_closed (start house_db)))) =
    [house_row].
Proof.
  apply (update_leaves_projects_unchanged calm house_closed (start house_db)
           house_row (mkChange "status" (Some "Open") "Closed") []).
  - intros i _. reflexivity.
  - reflexivity.
  - reflexivity.
  - intros r [<-|[]]. discriminate.
Defined.

(** * The extractor *)

Lemma rstrip_cons (c : ascii) (s : string) :
  rstrip (String c s) =
  match rstrip s with
  | EmptyString => if isspace c then EmptyString else String c EmptyString
  | r => String c r
  end.
Proof. reflexivity. Qed.

Lemma rstrip_idem (s : string) : rstrip (rstrip s) = rstrip s.
Proof.
  induction s as [|c s IH]; [reflexivity|].
  rewrite rstrip_cons. destruct (rstrip s) as [|c' r] eqn:Hr.
  - destruct (isspace c) eqn:Hc; [reflexivity|]. cbn. now rewrite Hc.
  - rewrite rstrip_cons, IH. reflexivity.
Qed.

Lemma lstrip_head (s : string) :
  match lstrip s with
  | EmptyString => True
  | String c _ => isspace c = false
  end.
Proof.
  induction s as [|c s IH]; cbn; [exact I|].
  destruct (isspace c) eqn:Hc; [exact IH|exact Hc].
Qed.

Lemma rstrip_head (c : ascii) (s : string) :
  isspace c = false -> exists r, rstrip (String c s) = String c r.
Proof.
  intros Hc. cbn. destruct (rstrip s); rewrite ?Hc; eauto.
Qed.

Lemma lstrip_strip (s : string) : lstrip (strip s) = strip s.
Proof.
  unfold strip. pose proof (lstrip_head s) as H.
  destruct (lstrip s) as [|c r]; [reflexivity|].
  destruct (rstrip_head c r H) as [r' ->]. cbn. now rewrite H.
Qed.

Lemma strip_idem (s : string) : strip (strip s) = strip s.
Proof.
  unfold strip at 1. rewrite lstrip_strip. unfold strip. apply rstrip_idem.
Qed.

Lemma lstrip_split (s : string) :
  exists pre, s = String.append pre (lstrip s) /\ spaces pre = true.
Proof.
  induction s as [|c s (pre & Hs & Hp)]; [now exists EmptyString|].
  cbn. destruct (isspace c) eqn:Hc.
  - exists (String c pre). cbn. now rewrite Hc, Hp, <- Hs.
  - now exists EmptyString.
Qed.

Lemma rstrip_split (s : string) :
  exists post, s = String.append (rstrip s) post /\ spaces post = true.
Proof.
  induction s as [|c s (post & Hs & Hp)]; [now exists EmptyString|].
  rewrite rstrip_cons. destruct (rstrip s) as [|c' r].
  - destruct (isspace c) eqn:Hc.
    + exists (String c post). cbn in *. subst s. now rewrite Hc, Hp.
    + exists post. cbn in *. now subst s.
  - exists post. split; [|exact Hp]. cbn. f_equal. exact Hs.
Qed.

Lemma append_assoc (a b c : string) :
  String.append (String.append a b) c = String.append a (String.append b c).
Proof. induction a as [|x a IH]; cbn; [reflexivity|now rewrite IH]. Qed.

Lemma strip_first (s : string) (c : ascii) (r : string) :
  strip s = String c r -> isspace c = false.
Proof.
  unfold strip. pose proof (lstrip_head s) as H.
  destruct (lstrip s) as [|c0 r0]; [discriminate|].
  destruct (rstrip_head c0 r0 H) as [r' ->]. now intros [= <- _].
Qed.

Lemma rstrip_last (s : string) :
  forall r c,
    rstrip s = String.append r (String c EmptyString) -> isspace c = false.
Proof.
  induction s as [|a s IH]; intros r c.
  - destruct r; discriminate.
  - rewrite rstrip_cons. destruct (rstrip s) as [|c' r0].
    + destruct (isspace a) eqn:Ha; [destruct r; discriminate|].
      destruct r as [|x r']; cbn; [now intros [= <-]|].
      intros [= _ H]. destruct r'; discriminate.
    + destruct r as [|x r']; cbn; [discriminate|].
      intros [= _ H]. now apply (IH r').
Qed.

(** [strip] removes whitespace from the two ends and nothing else:
    the text is the stripped text between two runs of whitespace, and the
    stripped text neither starts nor ends with a whitespace character; so
    stripping a stripped text changes nothing. *)
Theorem strip_removes_outer_whitespace (s : string) :
  (exists pre post,
     s = String.append pre (String.append (strip s) post) /\
     spaces pre = true /\ spaces post = true) /\
  (forall c r, strip s = String c r -> isspace c = false) /\
  (forall r c,
     strip s = String.append r (String c EmptyString) -> isspace c = false) /\
  strip (strip s) = strip s.
Proof.
  split; [|split; [|split]].
  - destruct (lstrip_split s) as (pre & Hs & Hpre).
    destruct (rstrip_split (lstrip s)) as (post & Hl & Hpost).
    exists pre, post. unfold strip. now rewrite <- Hl, <- Hs.
  - apply strip_first.
  - unfold strip. apply rstrip_last.
  - apply strip_idem.
Qed.

(** ** Ids from links *)

Lemma split_not_nil (sep : ascii) (s : string) : split sep s <> [].
Proof.
  destruct s as [|c s]; cbn; [discriminate|].
  destruct (Ascii.eqb c sep); [discriminate|].
  destruct (split sep s); discriminate.
Qed.

Lemma split_without_sep (sep : ascii) (s : string) :
  occurs sep s = false -> split sep s = [s].
Proof.
  induction s as [|c s IH]; cbn; [reflexivity|].
  destruct (Ascii.eqb c sep); cbn; [discriminate|].
  intros H. now rewrite (IH H).
Qed.

Lemma split_with_sep (sep : ascii) (s : string) :
  occurs sep s = true -> 2 <= List.length (split sep s).
Proof.
  induction s as [|c s IH]; cbn; [discriminate|].
  destruct (Ascii.eqb c sep); cbn.
  - intros _. pose proof (split_not_nil sep s).
    destruct (split sep s); [contradiction|cbn; lia].
  - intros H. specialize (IH H). destruct (split sep s); cbn in *; lia.
Qed.

Lemma split_append (sep : ascii) (a b : string) :
  split sep (String.append a (String sep b)) = split sep a ++ split sep b.
Proof.
  induction a as [|c a IH]; cbn.
  - now rewrite Ascii.eqb_refl.
  - destruct (Ascii.eqb c sep); [now rewrite IH|].
    rewrite IH. pose proof (split_not_nil sep a).
    destruct (split sep a); [contradiction|reflexivity].
Qed.

Lemma split_parts_sep_free (sep : ascii) (s : string) :
  Forall (fun w => occurs sep w = false) (split sep s).
Proof.
  induction s as [|c s IH]; cbn; [now repeat constructor|].
  destruct (Ascii.eqb c sep) eqn:Hc; [now constructor|].
  destruct (split sep s) as [|w ws]; [now repeat constructor; cbn; rewrite Hc|].
  inversion IH as [|? ? Hw Hws]; subst.
  constructor; [cbn; now rewrite Hc|exact Hws].
Qed.

Lemma extract_none_iff (href : string) :
  extract_list_id (Some href) = None <-> occurs "/" href = false.
Proof.
  unfold extract_list_id. split.
  - destruct (occurs "/" href) eqn:Ho; [|reflexivity].
    apply split_with_sep in Ho.
    destruct (Nat.ltb_spec (List.length (split "/" href)) 2);
      [lia|discriminate].
  - intros Ho. now rewrite (split_without_sep _ _ Ho).
Qed.

Lemma extract_id_sep_free (href id : string) :
  extract_list_id (Some href) = Some (Some id) -> occurs "/" id = false.
Proof.
  unfold extract_list_id.
  destruct (Nat.ltb_spec (List.length (split "/" href)) 2) as [|Hlen];
    [discriminate|].
  intros [= <-].
  pose proof (split_parts_sep_free "/" href) as Hall.
  rewrite Forall_forall in Hall. apply Hall, nth_In. lia.
Qed.

(** X8: the id taken from a link.  A link without a slash gives no id
    (the item is dropped) and any other link gives one; an id never
    contains a slash; and for a link that ends in [/seg/last], with no
    slash in [seg] and [last], the id is [seg], whatever comes before. *)
Theorem list_id_is_the_segment_before_the_last :
  (forall href,
     extract_list_id (Some href) = None <-> occurs "/" href = false) /\
  (forall href id,
     extract_list_id (Some href) = Some (Some id) -> occurs "/" id = false) /\
  (forall pre seg last,
     occurs "/" seg = false -> occurs "/" last = false ->
     extract_list_id
       (Some (String.append pre
                (String "/" (String.append seg (String "/" last))))) =
     Some (Some seg)).
Proof.
  split; [|split].
  - apply extract_none_iff.
  - apply extract_id_sep_free.
  - intros pre seg last Hseg Hlast. unfold extract_list_id.
    rewrite !split_append, (split_without_sep _ _ Hseg),
      (split_without_sep _ _ Hlast), length_app. cbn [List.length app].
    destruct (Nat.ltb_spec (List.length (split "/" pre) + 2) 2); [lia|].
    replace (List.length (split "/" pre) + 2 - 2)
      with (List.length (split "/" pre) + 0) by lia.
    now rewrite app_nth2_plus.
Qed.

(** ** Items and records *)

Lemma trimmed_strip (s : string) : trimmed (strip s).
Proof.
  split; [apply strip_first|]. unfold strip. apply rstrip_last.
Qed.

Lemma trimmed_empty : trimmed EmptyString.
Proof. split; [discriminate|]. intros r c. destruct r; discriminate. Qed.

Lemma parse_item_texts (it : property_item) (p : project) :
  parse_item it = inr p -> Forall trimmed (texts p).
Proof.
  unfold parse_item. intros H.
  destruct (title_h2 it) as [t|]; [|discriminate H].
  destruct (price_span it) as [price|]; [|discriminate H].
  destruct (status_span it) as [st|];
    destruct (element_inline it) as [d|];
    try (destruct (address_span d) as [a|]; [|discriminate H]);
    destruct (title_link it) as [[href|]|]; try discriminate H;
    try (destruct (extract_list_id (Some href)) as [id|]; [|discriminate H]);
    injection H as <-; unfold texts, fields;
    cbn [map get title location budget status description];
    repeat constructor; (apply trimmed_strip || apply trimmed_empty).
Qed.

Lemma parse_items_fst (items : list property_item) :
  fst (parse_items items) =
  flat_map (fun it => match parse_item it with inr p => [p] | inl _ => [] end)
    items.
Proof.
  induction items as [|it items IH]; [reflexivity|].
  cbn. destruct (parse_items items) as [ps errs]. cbn in IH.
  destruct (parse_item it); cbn; now rewrite IH.
Qed.

Lemma parse_items_snd (items : list property_item) :
  snd (parse_items items) =
  flat_map (fun it => match parse_item it with inr _ => [] | inl e => [e] end)
    items.
Proof.
  induction items as [|it items IH]; [reflexivity|].
  cbn. destruct (parse_items items) as [ps errs]. cbn in IH.
  destruct (parse_item it); cbn; now rewrite IH.
Qed.

(** X4: on pages whose texts are made of characters below code point
    256, which are the characters of this development, every text of
    every record that the extractor produces (title, location, budget,
    status, description) neither starts nor ends with a whitespace
    character. *)
Theorem parsed_texts_are_trimmed
  (items : list property_item) (p : project) (t : string) :
  In p (fst (parse_items items)) ->
  In t (texts p) ->
  trimmed t.
Proof.
  rewrite parse_items_fst, in_flat_map. intros (it & _ & Hp) Ht.
  destruct (parse_item it) as [e|q] eqn:Hq; [destruct Hp|].
  destruct Hp as [<-|[]].
  pose proof (parse_item_texts it q Hq) as Hall.
  rewrite Forall_forall in Hall. now apply Hall.
Qed.

Lemma parsed_texts_are_trimmed_witness : trimmed "Nice  X".
Proof.
  apply (parsed_texts_are_trimmed
           [mkItem None None None None None;
            mkItem (Some " House ") (Some "10k")
              (Some (mkDiv "Nice  X " (Some "X"))) None
              (Some (Some "https://norac.co.ke/property/a1/"))]
           (mkProject (Some "a1") "House" "X" "10k" "" "Nice  X")).
  - left. reflexivity.
  - do 4 right. left. reflexivity.
Defined.

(** X5: an item yields a record exactly when its title and its price
    are found, its description block, if found, holds an address, and its
    title link, if found, has an [href] with a slash in it; any other
    item is dropped. *)
Theorem item_is_kept_iff (it : property_item) :
  (exists p, parse_item it = inr p) <->
  title_h2 it <> None /\
  price_span it <> None /\
  (forall d, element_inline it = Some d -> address_span d <> None) /\
  (forall l, title_link it = Some l ->
             exists href, l = Some href /\ occurs "/" href = true).
Proof.
  pose proof extract_none_iff as Hnone.
  unfold parse_item. split.
  - intros [p H].
    destruct (title_h2 it) as [t|]; [|discriminate H].
    destruct (price_span it) as [price|]; [|discriminate H].
    repeat split; try discriminate.
    + intros d Hd. rewrite Hd in H.
      destruct (address_span d); [discriminate|discriminate H].
    + intros l Hl. rewrite Hl in H.
      destruct (element_inline it) as [d|];
        try (destruct (address_span d); [|discriminate H]);
        (destruct l as [href|]; [|discriminate H]);
        exists href; (split; [reflexivity|]);
        destruct (occurs "/" href) eqn:Ho; try reflexivity;
        apply Hnone in Ho; rewrite Ho in H; discriminate H.
  - intros (Ht & Hp & Hd & Hl).
    destruct (title_h2 it) as [t|]; [|contradiction].
    destruct (price_span it) as [price|]; [|contradiction].
    assert (Hlink : exists id,
              match title_link it with
              | None => inr None
              | Some None => inl KeyError
              | Some (Some href) =>
                  match extract_list_id (Some href) with
                  | None => inl IndexError
                  | Some id => inr id
                  end
              end = inr id).
    { destruct (title_link it) as [l|]; [|eauto].
      destruct (Hl l eq_refl) as (href & -> & Ho).
      destruct (extract_list_id (Some href)) eqn:He; [eauto|].
      apply Hnone in He. congruence. }
    destruct Hlink as [id ->].
    destruct (element_inline it) as [d|]; [|eauto].
    specialize (Hd d eq_refl). destruct (address_span d); [eauto|contradiction].
Qed.

(** X6: a record that the extractor produces has no id exactly when its
    item has no title link, and an id that it has contains no slash. *)
Theorem parsed_id_is_missing_only_without_link
  (it : property_item) (p : project) :
  parse_item it = inr p ->
  (list_id p = None <-> title_link it = None) /\
  (forall i, list_id p = Some i -> occurs "/" i = false).
Proof.
  pose proof extract_id_sep_free as Hfree.
  unfold parse_item. intros H.
  destruct (title_h2 it) as [t|]; [|discriminate H].
  destruct (price_span it) as [price|]; [|discriminate H].
  destruct (element_inline it) as [d|];
    try (destruct (address_span d) as [a|]; [|discriminate H]);
    destruct (title_link it) as [[href|]|]; try discriminate H;
    try (destruct (extract_list_id (Some href)) as [id|] eqn:He;
         [|discriminate H]);
    injection H as <-; cbn [list_id]; (split; [split; try easy|]);
    try (intros Hid; subst id; unfold extract_list_id in He;
         destruct (Nat.ltb _ _); discriminate He);
    try (intros i [= ->]; now apply (Hfree href));
    intros i; discriminate.
Qed.

Lemma parsed_id_witness :
  list_id (mkProject (Some "a1") "House" "X" "10k" "" "Nice  X") = Some "a1" /\
  occurs "/" "a1" = false.
Proof.
  split; [reflexivity|].
  apply (parsed_id_is_missing_only_without_link
           (mkItem (Some " House ") (Some "10k")
              (Some (mkDiv "Nice  X " (Some "X"))) None
              (Some (Some "https://norac.co.ke/property/a1/")))
           (mkProject (Some "a1") "House" "X" "10k" "" "Nice  X")).
  - reflexivity.
  - reflexivity.
Defined.

(** X7: the extractor treats the items one by one and in order: the
    records and the errors of a page are those of its first part
    followed by those of the rest, and every item gives either one record
    or one error. *)
Theorem parse_items_isolates_items (a b : list property_item) :
  parse_items (a ++ b) =
    (fst (parse_items a) ++ fst (parse_items b),
     snd (parse_items a) ++ snd (parse_items b)) /\
  List.length (fst (parse_items a)) + List.length (snd (parse_items a)) =
    List.length a.
Proof.
  split.
  - rewrite (surjective_pairing (parse_items (a ++ b))).
    now rewrite !parse_items_fst, !parse_items_snd, !flat_map_app.
  - induction a as [|it a IH]; [reflexivity|].
    cbn. destruct (parse_items a) as [ps errs].
    destruct (parse_item it); cbn in *; lia.
Qed.

(** * The fetch *)

Lemma retry_spec (delay again : nat) (get : nat -> option response) :
  forall k,
    1 <= calls (retry delay again get k) <= S again /\
    slept (retry delay again get k) =
      delay * (calls (retry delay again get k) - 1) /\
    (forall j, j < calls (retry delay again get k) - 1 ->
               exists e, fetch_once (get (k + j)) = Raise e) /\
    outcome (retry delay again get k) =
      fetch_once (get (k + (calls (retry delay again get k) - 1))) /\
    (forall e, outcome (retry delay again get k) = Raise e ->
               calls (retry delay again get k) = S again).
Proof.
  assert (Hone : forall k r,
            fetch_once (get k) = r ->
            forall n, (forall e, r = Raise e -> 1 = S n) ->
            1 <= 1 <= S n /\ 0 = delay * (1 - 1) /\
            (forall j, j < 1 - 1 -> exists e, fetch_once (get (k + j)) = Raise e) /\
            r = fetch_once (get (k + (1 - 1))) /\
            (forall e, r = Raise e -> 1 = S n)).
  { intros k r Hk n Hn. cbn [Nat.sub]. rewrite Nat.add_0_r, Nat.mul_0_r.
    split; [lia|]. split; [reflexivity|]. split; [intros j Hj; lia|].
    split; [now symmetry|exact Hn]. }
  induction again as [|again IH]; intros k; cbn [retry].
  - destruct (fetch_once (get k)) as [t|e] eqn:Hk; cbn [outcome calls slept];
      apply (Hone k _ Hk); auto.
  - destruct (fetch_once (get k)) as [t|e] eqn:Hk; cbn [outcome calls slept].
    + apply (Hone k _ Hk). discriminate.
    + destruct (IH (S k)) as ((Hlo & Hhi) & Hs & Hf & Ho & Hr).
      rewrite Nat.sub_succ, Nat.sub_0_r.
      split; [lia|]. split; [rewrite Hs; nia|]. split; [|split].
      * intros [|j] Hj; [rewrite Nat.add_0_r; eauto|].
        replace (k + S j) with (S k + j) by lia. apply Hf. lia.
      * rewrite Ho. f_equal. f_equal. lia.
      * intros e' He. f_equal. now apply (Hr e').
Qed.

(** X9: the decorated fetch calls the server at least once and at most
    three times, sleeps two seconds between two calls, stops at the first
    call that succeeds and returns its text; every call before the last
    failed, and it raises only when all three calls failed. *)
Theorem fetch_retries_at_most_three_times
  (get : nat -> option response) (k : nat) :
  1 <= calls (fetch_projects_retrying get k) <= 3 /\
  slept (fetch_projects_retrying get k) =
    2 * (calls (fetch_projects_retrying get k) - 1) /\
  (forall j, j < calls (fetch_projects_retrying get k) - 1 ->
             exists e, fetch_once (get (k + j)) = Raise e) /\
  outcome (fetch_projects_retrying get k) =
    fetch_once (get (k + (calls (fetch_projects_retrying get k) - 1))) /\
  (forall e, outcome (fetch_projects_retrying get k) = Raise e ->
             calls (fetch_projects_retrying get k) = 3 /\
             forall j, j < 3 -> exists e', fetch_once (get (k + j)) = Raise e').
Proof.
  unfold fetch_projects_retrying.
  destruct (retry_spec 2 2 get k) as (Hc & Hs & Hf & Ho & Hr).
  repeat split; try tauto.
  - now apply (Hr e).
  - intros j Hj. pose proof (Hr e H) as Hc3.
    destruct (Nat.eq_dec j 2) as [->|Hne].
    + exists e. rewrite <- H, Ho, Hc3. reflexivity.
    + apply Hf. lia.
Qed.

(** * What a record can raise *)

Lemma no_fault_cons (E : env) (n m : nat) :
  raises E n = false -> no_fault E (S n) m -> no_fault E n (S m).
Proof.
  intros H0 Hm [|i] Hi; [now rewrite Nat.add_0_r|].
  replace (n + S i) with (S n + i) by lia. apply Hm. lia.
Qed.

Lemma no_fault_nil (E : env) (n : nat) : no_fault E n 0.
Proof. intros i Hi. lia. Qed.

(** The calls of the logging loop: it ends normally after calls that all
    succeeded, or raises the error of its last call, which failed after
    calls that succeeded. *)
Lemma log_changes_calls (E : env) (p : project) (cs : list change) :
  forall s,
    exists m,
      (fst (for_each cs (log_change E p) s) = Ok tt /\
       n_calls (snd (for_each cs (log_change E p) s)) = n_calls s + m /\
       no_fault E (n_calls s) m) \/
      (fst (for_each cs (log_change E p) s) = Raise OperationalError /\
       n_calls (snd (for_each cs (log_change E p) s)) = n_calls s + S m /\
       no_fault E (n_calls s) m /\
       raises E (n_calls s + m) = true).
Proof.
  induction cs as [|c cs IH]; intros s.
  - exists 0. left. cbn. rewrite Nat.add_0_r.
    repeat split. apply no_fault_nil.
  - cbn [for_each]. unfold bind.
    destruct (raises E (n_calls s)) eqn:Hr.
    + rewrite (log_change_fails E p c s Hr). exists 0. right. cbn.
      rewrite Nat.add_0_r, Nat.add_1_r. repeat split; [apply no_fault_nil|exact Hr].
    + rewrite (log_change_ok E p c s Hr).
      match goal with |- context [for_each cs _ ?s1] =>
        destruct (IH s1) as [m [(Hok & Hn & Hf)|(Hno & Hn & Hf & Hbad)]] end;
        cbn [n_calls] in Hn, Hf; exists (S m); [left|right];
        rewrite ?Hok, ?Hno, Hn; repeat split; try lia;
        try (apply no_fault_cons; assumption).
      cbn [n_calls] in Hbad.
      now replace (n_calls s + S m) with (S (n_calls s) + m) by lia.
Qed.

(** X10: the [try] body of a record either ends normally, after calls
    into the database that all succeeded, or raises the error of the
    last call it made, which failed after calls that succeeded: it never
    raises without a call of its own having failed.  The lookup before
    the insert keeps the primary key from ever being violated, and the
    statements always get as many parameters as they have
    placeholders. *)
Theorem record_fails_only_when_a_call_fails
  (E : env) (p : project) (s : state) :
  exists m,
    (fst (reconcile E p s) = Ok tt /\
     n_calls (snd (reconcile E p s)) = n_calls s + m /\
     no_fault E (n_calls s) m) \/
    (fst (reconcile E p s) = Raise OperationalError /\
     n_calls (snd (reconcile E p s)) = n_calls s + S m /\
     no_fault E (n_calls s) m /\
     raises E (n_calls s + m) = true).
Proof.
  assert (Hfirst : raises E (n_calls s) = true ->
                   no_fault E (n_calls s) 0 /\
                   raises E (n_calls s + 0) = true).
  { intros H. split; [apply no_fault_nil|now rewrite Nat.add_0_r]. }
  assert (Hsecond : raises E (n_calls s) = false ->
                    raises E (S (n_calls s)) = true ->
                    no_fault E (n_calls s) 1 /\
                    raises E (n_calls s + 1) = true).
  { intros H0 H1. split; [apply no_fault_cons; [exact H0|apply no_fault_nil]|].
    now rewrite Nat.add_1_r. }
  remember (reconcile E p s) as res eqn:Hres.
  unfold reconcile in Hres. unfold bind at 1 in Hres.
  destruct (raises E (n_calls s)) eqn:H0.
  { rewrite (execute_fails E _ _ s H0) in Hres. subst res. exists 0. right.
    cbn. rewrite Nat.add_1_r. destruct (Hfirst eq_refl). auto. }
  rewrite (execute_ok E SELECT_projects [list_id p] s _ (working s) H0 eq_refl)
    in Hres.
  destruct (fetchone _) as [existing|] eqn:Hx.
  - destruct (diff existing p) as [|c cs].
    { subst res. exists 1. left. cbn. rewrite Nat.add_1_r.
      repeat split. apply no_fault_cons; [exact H0|apply no_fault_nil]. }
    unfold bind at 1 in Hres. unfold datetime_now in Hres.
    unfold bind at 1 in Hres.
    destruct (raises E (S (n_calls s))) eqn:H1.
    { rewrite execute_fails in Hres by exact H1. subst res. exists 1. right.
      cbn. destruct (Hsecond eq_refl eq_refl).
      repeat split; auto. lia. }
    erewrite execute_ok in Hres; [| exact H1 | reflexivity].
    unfold bind at 1 in Hres.
    match type of Hres with context [for_each (c :: cs) _ ?s3] =>
      destruct (log_changes_calls E p (c :: cs) s3)
        as [m [(Hok & Hn & Hf)|(Hno & Hn & Hf & Hbad)]];
      destruct (for_each (c :: cs) (log_change E p) s3) as [[[]|e] s4] end;
      cbn [fst snd n_calls set_working tick_calls tick_now] in *;
      try discriminate; subst res; exists (S (S m)); [left|right];
      cbn [fst snd print put_line n_calls]; rewrite Hn;
      repeat split; try lia; try assumption;
      try (apply no_fault_cons; [exact H0|];
           apply no_fault_cons; [exact H1|exact Hf]).
    now replace (n_calls s + S (S m)) with (S (S (n_calls s)) + m) by lia.
  - unfold bind at 1 in Hres. unfold datetime_now in Hres.
    unfold bind at 1 in Hres.
    destruct (raises E (S (n_calls s))) eqn:H1.
    { rewrite execute_fails in Hres by exact H1. subst res. exists 1. right.
      cbn. destruct (Hsecond eq_refl eq_refl).
      repeat split; auto. lia. }
    erewrite execute_ok in Hres;
      [| exact H1 | cbn; rewrite (no_match_no_conflict _ _ Hx); reflexivity].
    subst res. exists 2. left. cbn. repeat split; [lia|].
    apply no_fault_cons; [exact H0|].
    apply no_fault_cons; [exact H1|apply no_fault_nil].
Qed.

(** * Cycles that do not reach the store, and cycles that only fail *)

Lemma scrape_and_save_unfetched (E : env) (s : state) (e : exn) :
  (fetch E (n_fetch s) = None /\ e = RequestException) \/
  (exists html, fetch E (n_fetch s) = Some html /\ parse E html = None /\
                e = ParserError) ->
  scrape_and_save E s =
  (Ok tt,
   mkState (durable s) (working s) (n_calls s) (S (n_now s)) (S (n_fetch s))
     (stdout s ++ [StartingScrape (now E (n_now s)); ErrorInCycle e])).
Proof.
  intros H. unfold scrape_and_save, datetime_now, print, fetch_projects,
    parse_projects, try_except. unfold bind at 1 2 3. cbn.
  destruct H as [[Hf ->]|(html & Hf & Hp & ->)]; rewrite Hf; cbn.
  - unfold put_line, tick_fetch, tick_now. cbn. now rewrite <- app_assoc.
  - unfold bind. rewrite Hp. cbn.
    unfold put_line, tick_fetch, tick_now. cbn. now rewrite <- app_assoc.
Qed.

(** X11: when the fetch fails, or the parse of the fetched page does, the
    cycle makes no database call and leaves the store alone; it ends
    normally, and the last line it prints is the error line of the
    cycle. *)
Theorem failed_fetch_skips_the_batch (E : env) (s : state) :
  fetch E (n_fetch s) = None \/
  (exists html, fetch E (n_fetch s) = Some html /\ parse E html = None) ->
  fst (scrape_and_save E s) = Ok tt /\
  durable (snd (scrape_and_save E s)) = durable s /\
  working (snd (scrape_and_save E s)) = working s /\
  n_calls (snd (scrape_and_save E s)) = n_calls s /\
  exists before e,
    stdout (snd (scrape_and_save E s)) = before ++ [ErrorInCycle e].
Proof.
  intros [Hf|(html & Hf & Hp)].
  - rewrite (scrape_and_save_unfetched E s RequestException) by auto.
    cbn. repeat split.
    exists (stdout s ++ [StartingScrape (now E (n_now s))]), RequestException.
    now rewrite <- app_assoc.
  - rewrite (scrape_and_save_unfetched E s ParserError) by eauto 6.
    cbn. repeat split.
    exists (stdout s ++ [StartingScrape (now E (n_now s))]), ParserError.
    now rewrite <- app_assoc.
Qed.

Lemma failed_fetch_witness :
  durable (snd (scrape_and_save calm (start house_db))) = house_db /\
  n_calls (snd (scrape_and_save calm (start house_db))) = 0.
Proof.
  destruct (failed_fetch_skips_the_batch calm (start house_db))
    as (_ & Hd & _ & Hn & _).
  - left. reflexivity.
  - split; [exact Hd | exact Hn].
Defined.

Lemma loop_all_fail (E : env) (ps : list project) :
  forall s,
    (forall i, i < List.length ps -> raises E (n_calls s + i) = true) ->
    for_each ps (process E) s =
    (Ok tt,
     mkState (durable s) (working s) (n_calls s + List.length ps) (n_now s)
       (n_fetch s)
       (stdout s ++
        map (fun p => ErrorProcessing (list_id p) OperationalError) ps)).
Proof.
  induction ps as [|p ps IH]; intros s H.
  - cbn. unfold ret. rewrite app_nil_r, Nat.add_0_r. now destruct s.
  - rewrite loop_cons.
    assert (H0 : raises E (n_calls s) = true).
    { rewrite <- (Nat.add_0_r (n_calls s)). apply H. cbn. lia. }
    assert (Hp : process E p s =
                 (Ok tt, put_line (ErrorProcessing (list_id p) OperationalError)
                           (tick_calls s))).
    { unfold process, try_except, reconcile. unfold bind at 1.
      now rewrite (execute_fails E _ _ s H0). }
    rewrite Hp. cbn [snd]. rewrite IH.
    + cbn. rewrite <- app_assoc, Nat.add_succ_r. reflexivity.
    + intros i Hi. cbn. replace (S (n_calls s + i)) with (n_calls s + S i) by lia.
      apply H. cbn. lia.
Qed.

Lemma scrape_and_save_all_fail
  (E : env) (s : state) (html : string) (ps : list project) :
  fetch E (n_fetch s) = Some html ->
  parse E html = Some ps ->
  raises E (n_calls s) = false ->
  (forall i, i < List.length ps -> raises E (S (n_calls s) + i) = true) ->
  raises E (S (n_calls s) + List.length ps) = false ->
  scrape_and_save E s =
  (Ok tt,
   mkState (durable s) (durable s) (S (S (n_calls s + List.length ps)))
     (S (n_now s)) (S (n_fetch s))
     (stdout s ++
      StartingScrape (now E (n_now s))
      :: map (fun p => ErrorProcessing (list_id p) OperationalError) ps
      ++ [SuccessfullyProcessed (List.length ps)])).
Proof.
  intros Hf Hp Hc Hall Hcommit.
  assert (Hsave : forall s1,
            n_calls s1 = n_calls s ->
            save_projects E ps s1 =
            (Ok tt,
             mkState (durable s1) (durable s1)
               (S (S (n_calls s1 + List.length ps))) (n_now s1) (n_fetch s1)
               (stdout s1 ++
                map (fun p => ErrorProcessing (list_id p) OperationalError)
                  ps))).
  { intros s1 Hn. unfold save_projects. unfold bind at 1.
    unfold connect. unfold bind at 1.
    rewrite sqlite3_call_ok by now rewrite Hn.
    unfold bind at 1. rewrite loop_all_fail by (cbn; now rewrite Hn).
    unfold commit, bind. now rewrite sqlite3_call_ok by (cbn; now rewrite Hn). }
  unfold scrape_and_save, datetime_now, fetch_projects, parse_projects.
  unfold bind at 1. unfold bind at 1. unfold print at 1. unfold try_except.
  unfold bind at 1. cbn [n_fetch put_line tick_now]. rewrite Hf.
  unfold bind at 1. rewrite Hp. unfold ret. unfold bind at 1.
  rewrite Hsave by reflexivity.
  unfold print, put_line, tick_fetch. cbn.
  rewrite <- !app_assoc. reflexivity.
Qed.

(** X12: a cycle in which the page is fetched and parsed, the connect
    and the commit succeed, and the first statement of every record fails
    still reports the whole batch as successfully processed: the last
    lines it prints are one error line per record, in batch order,
    followed by the line of success with the number of records; the
    database file is unchanged. *)
Theorem cycle_reports_success_when_every_record_fails
  (E : env) (s : state) (html : string) (ps : list project) :
  fetch E (n_fetch s) = Some html ->
  parse E html = Some ps ->
  raises E (n_calls s) = false ->
  (forall i, i < List.length ps -> raises E (S (n_calls s) + i) = true) ->
  raises E (S (n_calls s) + List.length ps) = false ->
  (exists before,
     stdout (snd (scrape_and_save E s)) =
       before ++
       map (fun p => ErrorProcessing (list_id p) OperationalError) ps ++
       [SuccessfullyProcessed (List.length ps)]) /\
  durable (snd (scrape_and_save E s)) = durable s.
Proof.
  intros Hf Hp Hc Hall Hcommit.
  rewrite (scrape_and_save_all_fail E s html ps Hf Hp Hc Hall Hcommit).
  split; [|reflexivity].
  exists (stdout s ++ [StartingScrape (now E (n_now s))]). cbn.
  now rewrite <- app_assoc.
Qed.

Lemma cycle_reports_success_witness :
  exists before,
    stdout (snd (scrape_and_save
                   (mkEnv (Nat.eqb 1) stamp (fun _ => Some "page")
                      (fun _ => Some [house_closed]))
                   (start house_db))) =
      before ++
      [ErrorProcessing (Some "a1") OperationalError; SuccessfullyProcessed 1].
Proof.
  destruct (cycle_reports_success_when_every_record_fails
              (mkEnv (Nat.eqb 1) stamp (fun _ => Some "page")
                 (fun _ => Some [house_closed]))
              (start house_db) "page" [house_closed])
    as [[before H] _].
  - reflexivity.
  - reflexivity.
  - reflexivity.
  - intros [|i] Hi; [reflexivity|cbn in Hi; lia].
  - reflexivity.
  - exists before. exact H.
Defined.

(** * The start of the program *)

Lemma setup_database_cases (E : env) (s : state) :
  (no_fault E (n_calls s) 4 /\
   fst (setup_database E s) = Ok tt) \/
  ((exists i, i < 4 /\ raises E (n_calls s + i) = true) /\
   fst (setup_database E s) = Raise OperationalError).
Proof.
  assert (Hat : forall i, i < 4 -> raises E (i + n_calls s) = true ->
                exists j, j < 4 /\ raises E (n_calls s + j) = true).
  { intros i Hi H. exists i. now rewrite Nat.add_comm. }
  unfold setup_database, connect, commit, bind, sqlite3_call.
  destruct (raises E (n_calls s)) eqn:H0; cbn;
    [right; split; [apply (Hat 0); [lia|exact H0]|reflexivity]|].
  destruct (raises E (S (n_calls s))) eqn:H1; cbn;
    [right; split; [apply (Hat 1); [lia|exact H1]|reflexivity]|].
  destruct (raises E (S (S (n_calls s)))) eqn:H2; cbn;
    [right; split; [apply (Hat 2); [lia|exact H2]|reflexivity]|].
  destruct (raises E (S (S (S (n_calls s))))) eqn:H3; cbn;
    [right; split; [apply (Hat 3); [lia|exact H3]|reflexivity]|].
  left. split; [|reflexivity].
  intros i Hi. rewrite Nat.add_comm.
  destruct i as [|[|[|[|i]]]]; [exact H0|exact H1|exact H2|exact H3|lia].
Qed.

Lemma setup_database_effect (E : env) (s : state) :
  durable (snd (setup_database E s)) = durable s /\
  stdout (snd (setup_database E s)) = stdout s.
Proof.
  unfold setup_database, connect, commit, bind, sqlite3_call.
  repeat (match goal with |- context [raises E ?n] =>
            destruct (raises E n) end; cbn); auto.
Qed.

(** X13: the program ends with an exception exactly when one of the four
    database calls of [setup_database] fails, before any cycle has
    started and with nothing printed; the setup never changes the rows of
    the database file; and once it has returned, the program goes
    through the first cycle and every scheduled one. *)
Theorem program_ends_only_while_setting_up (E : env) (n : nat) (s : state) :
  fst (main E n s) = fst (setup_database E s) /\
  (fst (setup_database E s) = Ok tt <-> no_fault E (n_calls s) 4) /\
  durable (snd (setup_database E s)) = durable s /\
  (fst (setup_database E s) <> Ok tt -> stdout (snd (main E n s)) = stdout s).
Proof.
  split; [|split; [|split]].
  - destruct (fst (setup_database E s)) as [[]|e] eqn:Hs.
    + now apply main_returns.
    + unfold main, bind.
      destruct (setup_database E s) as [[[]|e'] s1]; cbn in *; congruence.
  - destruct (setup_database_cases E s) as [[Hf Hok]|[(i & Hi & Hr) Hno]].
    + tauto.
    + rewrite Hno. split; [discriminate|].
      intros Hf. rewrite (Hf i Hi) in Hr. discriminate.
  - apply setup_database_effect.
  - intros Hno. unfold main, bind.
    pose proof (proj2 (setup_database_effect E s)) as Ho.
    destruct (setup_database E s) as [[[]|e'] s1]; cbn in *;
      [contradiction|exact Ho].
Qed.

(** * What a batch does to the store *)

(** The three things one iteration can do to the tables of the
    connection, whatever fails: nothing, the insert of the record's row,
    or the [UPDATE] followed by a prefix of the record's entries. *)
Lemma process_cases (E : env) (p : project) (s : state) :
  working (snd (process E p s)) = working s \/
  (existing_row (working s) (list_id p) = None /\
   working (snd (process E p s)) =
     mkDb (projects (working s) ++ [new_row p (now E (n_now s))])
          (changes (working s))) \/
  (exists existing j,
     existing_row (working s) (list_id p) = Some existing /\
     working (snd (process E p s)) =
       mkDb (map (updated_row p (now E (n_now s))) (projects (working s)))
            (changes (working s) ++
             firstn j (entries (now E) p (S (n_now s))
                         (List.length (changes (working s)))
                         (diff existing p)))).
Proof.
  remember (process E p s) as res eqn:Hres.
  unfold process, try_except, reconcile in Hres. unfold bind at 1 in Hres.
  destruct (raises E (n_calls s)) eqn:H0.
  { rewrite (execute_fails E _ _ s H0) in Hres. subst res. now left. }
  rewrite (execute_ok E SELECT_projects [list_id p] s _ (working s) H0 eq_refl)
    in Hres.
  destruct (fetchone _) as [existing|] eqn:Hx.
  - destruct (diff existing p) as [|c cs] eqn:Hd; [subst res; now left|].
    unfold bind at 1 in Hres. unfold datetime_now in Hres.
    unfold bind at 1 in Hres.
    destruct (raises E (S (n_calls s))) eqn:H1.
    { rewrite execute_fails in Hres by exact H1. subst res. now left. }
    erewrite execute_ok in Hres; [| exact H1 | reflexivity].
    unfold bind at 1 in Hres.
    match type of Hres with context [for_each (c :: cs) _ ?s3] =>
      destruct (log_changes_prefix E p (c :: cs) s3)
        as (j & _ & Hw & _);
      destruct (for_each (c :: cs) (log_change E p) s3) as [[[]|e] s4] end;
      cbn in Hw; subst res; right; right; exists existing, j;
      (split; [exact Hx|]); cbn [snd print put_line working]; rewrite Hd;
      exact Hw.
  - unfold bind at 1 in Hres. unfold datetime_now in Hres.
    unfold bind at 1 in Hres.
    destruct (raises E (S (n_calls s))) eqn:H1.
    { rewrite execute_fails in Hres by exact H1. subst res. now left. }
    erewrite execute_ok in Hres;
      [| exact H1 | cbn; rewrite (no_match_no_conflict _ _ Hx); reflexivity].
    subst res. right. left. split; [exact Hx|reflexivity].
Qed.

Section Invariants.

Variable E : env.
Variable Q : database -> Prop.

(** A property of the tables that every iteration over a record of [ps]
    keeps is kept by the loop, by [save_projects] and, when it is kept for
    every record, by any number of cycles. *)
Lemma loop_keeps (ps : list project) :
  (forall p s, In p ps -> Q (working s) -> Q (working (snd (process E p s)))) ->
  forall s, Q (working s) -> Q (working (snd (for_each ps (process E) s))).
Proof.
  induction ps as [|p ps IH]; intros Hstep s Hs; [exact Hs|].
  rewrite loop_cons. apply IH.
  - intros q s' Hq. apply Hstep. now right.
  - apply Hstep; [now left|exact Hs].
Qed.

Lemma save_projects_keeps (ps : list project) (s : state) :
  (forall p s, In p ps -> Q (working s) -> Q (working (snd (process E p s)))) ->
  Q (durable s) -> Q (durable (snd (save_projects E ps s))).
Proof.
  intros Hstep Hs. unfold save_projects. unfold bind at 1.
  unfold connect, bind at 1, sqlite3_call.
  destruct (raises E (n_calls s)); cbn; [exact Hs|].
  unfold bind at 1.
  pose proof (loop_keeps ps Hstep (set_working (durable s) (tick_calls s)) Hs)
    as Hl.
  pose proof (proj1 (loop_effect E ps (set_working (durable s) (tick_calls s))))
    as Hd.
  destruct (for_each ps (process E) (set_working (durable s) (tick_calls s)))
    as [[[]|e] s1]; cbn in Hl, Hd; cbn; [|now rewrite Hd].
  unfold commit, bind, sqlite3_call.
  destruct (raises E (n_calls s1)); cbn; [now rewrite Hd|exact Hl].
Qed.

Hypothesis step :
  forall p s, Q (working s) -> Q (working (snd (process E p s))).

Lemma scrape_and_save_keeps (s : state) :
  Q (durable s) -> Q (durable (snd (scrape_and_save E s))).
Proof.
  intros Hs. unfold scrape_and_save, datetime_now, print, fetch_projects,
    parse_projects, try_except. unfold bind at 1 2 3. cbn.
  destruct (fetch E (n_fetch s)) as [html|]; cbn; [|exact Hs].
  unfold bind at 1. destruct (parse E html) as [ps|]; cbn; [|exact Hs].
  unfold bind.
  match goal with |- context [save_projects E ps ?s1] =>
    pose proof (save_projects_keeps ps s1 (fun p s' _ => step p s') Hs) as Hk;
    destruct (save_projects E ps s1) as [[[]|e] s2] end; exact Hk.
Qed.

Lemma cycles_keep (n : nat) :
  forall s, Q (durable s) -> Q (durable (snd (cycles E n s))).
Proof.
  induction n as [|n IH]; intros s Hs; [exact Hs|].
  cbn [cycles]. unfold bind.
  pose proof (scrape_and_save_keeps s Hs) as Hk.
  destruct (scrape_and_save E s) as [[[]|e] s1]; cbn in Hk; [apply IH|];
    exact Hk.
Qed.

End Invariants.

Lemma extends_refl (d : database) : extends d d.
Proof. split; exists []; now rewrite app_nil_r. Qed.

Lemma extends_trans (d1 d2 d3 : database) :
  extends d1 d2 -> extends d2 d3 -> extends d1 d3.
Proof.
  intros [[l1 H1] [m1 G1]] [[l2 H2] [m2 G2]]. split.
  - exists (l1 ++ l2). now rewrite H2, H1, app_assoc.
  - exists (m1 ++ m2). now rewrite G2, G1, app_assoc.
Qed.

Lemma updated_row_id (p : project) (t : datetime) (r : project_row) :
  r_list_id (updated_row p t r) = r_list_id r.
Proof. unfold updated_row. now destruct (sql_eq (r_list_id r) (Some t)). Qed.

Lemma process_extends (E : env) (p : project) (s : state) :
  extends (working s) (working (snd (process E p s))).
Proof.
  destruct (process_cases E p s) as [->|[[_ ->]|(x & j & _ & ->)]].
  - apply extends_refl.
  - split; cbn; [exists []; now rewrite app_nil_r|].
    rewrite map_app. eauto.
  - split; cbn; [eauto|]. exists []. rewrite app_nil_r, map_map.
    apply map_ext. intros r. apply updated_row_id.
Qed.

(** X14: no batch and no cycle, whatever fails in it, removes or
    rewrites a row of the change log, removes a row of [projects] or
    changes the id of one: the change log before is the beginning of the
    change log after, and so is the list of the ids of the rows. *)
Theorem store_only_grows
  (E : env) (ps : list project) (n : nat) (s : state) :
  extends (durable s) (durable (snd (save_projects E ps s))) /\
  extends (durable s) (durable (snd (cycles E n s))).
Proof.
  split.
  - apply (save_projects_keeps E (extends (durable s)));
      [|apply extends_refl].
    intros p s' _ H. exact (extends_trans _ _ _ H (process_extends E p s')).
  - apply (cycles_keep E (extends (durable s))); [|apply extends_refl].
    intros p s' H. exact (extends_trans _ _ _ H (process_extends E p s')).
Qed.

(** ** The change log refers to rows and records real changes *)

Lemma in_firstn {A} (x : A) (j : nat) (l : list A) :
  In x (firstn j l) -> In x l.
Proof.
  revert l. induction j as [|j IH]; intros [|y l]; cbn; try tauto.
  intros [->|H]; [now left|right; now apply IH].
Qed.

Lemma entries_in (now : nat -> datetime) (p : project) (cs : list change) :
  forall n k e,
    In e (entries now p n k cs) ->
    exists c,
      In c cs /\ c_list_id e = list_id p /\
      c_field_name e = Some (field_name c) /\
      c_old_value e = old_value c /\ c_new_value e = Some (new_value c).
Proof.
  induction cs as [|c cs IH]; intros n k e; cbn; [tauto|].
  intros [<-|H].
  - exists c. cbn. auto.
  - destruct (IH _ _ _ H) as (c' & Hc & Hrest). exists c'. auto.
Qed.

Lemma diff_in (r : project_row) (p : project) (c : change) :
  In c (diff r p) ->
  (exists f, field_name c = key f) /\ old_value c <> Some (new_value c).
Proof.
  rewrite diff_spec, in_map_iff. intros (f & <- & Hf).
  apply filter_In in Hf as [_ Hf]. cbn [field_name old_value new_value].
  split; [eauto|].
  intros Heq. apply value_eqb_eq in Heq. now rewrite Heq in Hf.
Qed.

Lemma ids_in (rows : list project_row) (r : project_row) (i : string) :
  In r rows -> r_list_id r = Some i -> In i (ids rows).
Proof.
  intros Hr Hi. unfold ids. apply in_flat_map. exists r.
  rewrite Hi. split; [exact Hr|now left].
Qed.

Lemma sound_change_mono (d d' : database) (c : change_row) :
  (forall i, In i (ids (projects d)) -> In i (ids (projects d'))) ->
  sound_change d c -> sound_change d' c.
Proof.
  intros Hsub (Hf & Hne & i & Hi & Hin). repeat split; auto.
  exists i. auto.
Qed.

Lemma process_sound (E : env) (p : project) (s : state) :
  sound_log (working s) -> sound_log (working (snd (process E p s))).
Proof.
  unfold sound_log. intros Hs.
  destruct (process_cases E p s) as [->|[[_ ->]|(x & j & Hx & ->)]].
  - exact Hs.
  - cbn. eapply Forall_impl; [|exact Hs].
    intros c. apply sound_change_mono. intros i Hi. cbn.
    rewrite ids_app. apply in_or_app. now left.
  - cbn [changes]. apply Forall_app. split.
    + eapply Forall_impl; [|exact Hs].
      intros c. apply sound_change_mono. intros i Hi. cbn.
      rewrite ids_map; [exact Hi|apply updated_row_id].
    + apply Forall_forall. intros e He. apply in_firstn in He.
      destruct (entries_in _ _ _ _ _ _ He) as (c & Hc & Hid & Hf & Ho & Hn).
      destruct (diff_in _ _ _ Hc) as [[f Hkey] Hne].
      destruct (existing_row_found _ _ _ Hx) as [Hin Heq].
      pose proof (sql_eq_eq _ _ Heq) as Hsame.
      unfold sound_change. rewrite Hf, Ho, Hn, Hid, Hkey.
      split; [eauto|]. split; [exact Hne|].
      destruct (list_id p) as [i|] eqn:Hp;
        [|destruct (r_list_id x); discriminate].
      exists i. split; [reflexivity|]. cbn.
      rewrite ids_map; [|apply updated_row_id].
      now apply (ids_in _ x).
Qed.

(** X15: if every row of the change log names one of the five tracked
    fields, records an old value different from the new one, and carries
    the id of a row of [projects], then the same holds after any batch
    and after any number of cycles, whatever fails: the code keeps the
    reference from [changes] to [projects] that the database does not
    enforce. *)
Theorem change_log_stays_sound
  (E : env) (ps : list project) (n : nat) (s : state) :
  sound_log (durable s) ->
  sound_log (durable (snd (save_projects E ps s))) /\
  sound_log (durable (snd (cycles E n s))).
Proof.
  intros Hs. split.
  - apply (save_projects_keeps E sound_log); [|exact Hs].
    intros p s' _. apply process_sound.
  - apply (cycles_keep E sound_log); [|exact Hs]. apply process_sound.
Qed.

Lemma change_log_stays_sound_witness :
  sound_log (durable (snd (save_projects calm [villa_closed; house_closed]
                             (start house_db)))) /\
  List.length
    (changes (durable (snd (save_projects calm [villa_closed; house_closed]
                              (start house_db))))) = 3.
Proof.
  split; [|reflexivity].
  apply (change_log_stays_sound calm [villa_closed; house_closed] 0
           (start house_db)).
  constructor.
Defined.

(** ** Rows are only ever added *)

Section Appends.

Variable E : env.
Variable ps : list project.
Variable d0 : database.

Hypothesis stored_ids_are_no_dates :
  forall n r, In r (projects d0) -> r_list_id r <> Some (now E n).
Hypothesis batch_ids_are_no_dates :
  forall n p, In p ps -> list_id p <> Some (now E n).

Lemma process_grows (p : project) (s : state) :
  In p ps ->
  grown ps d0 (working s) -> grown ps d0 (working (snd (process E p s))).
Proof.
  intros Hp (l & Hl & Hall).
  destruct (process_cases E p s) as [->|[[_ ->]|(x & j & _ & ->)]].
  - exists l. auto.
  - exists (l ++ [new_row p (now E (n_now s))]). cbn.
    rewrite Hl, app_assoc. split; [reflexivity|].
    apply Forall_app. split; [exact Hall|]. constructor; [eauto|constructor].
  - exists l. cbn. split; [|exact Hall].
    rewrite update_misses; [exact Hl|].
    intros r Hr. rewrite Hl in Hr. apply in_app_or in Hr as [Hr|Hr].
    + now apply stored_ids_are_no_dates.
    + rewrite Forall_forall in Hall.
      destruct (Hall r Hr) as (q & t & Hq & ->). cbn.
      now apply batch_ids_are_no_dates.
Qed.

Lemma save_projects_grows (s : state) :
  durable s = d0 -> grown ps d0 (durable (snd (save_projects E ps s))).
Proof.
  intros Hs. apply (save_projects_keeps E (grown ps d0)).
  - intros p s' Hp. now apply process_grows.
  - exists []. rewrite Hs, app_nil_r. split; [reflexivity|constructor].
Qed.

End Appends.

(** X16: when no stored id and no id of the batch is the text of a clock
    reading, a batch never changes or removes a row of [projects],
    whatever its records hold and whatever fails: the rows after the
    batch are the rows before it, unchanged and in order, followed by
    rows inserted for records of the batch. *)
Theorem batch_never_rewrites_a_row
  (E : env) (ps : list project) (s : state) :
  (forall n r, In r (projects (durable s)) -> r_list_id r <> Some (now E n)) ->
  (forall n p, In p ps -> list_id p <> Some (now E n)) ->
  exists l,
    projects (durable (snd (save_projects E ps s))) =
      projects (durable s) ++ l /\
    Forall (fun r => exists p t, In p ps /\ r = new_row p t) l.
Proof.
  intros Hstored Hbatch.
  exact (save_projects_grows E ps (durable s) Hstored Hbatch s eq_refl).
Qed.

Lemma stamp_not_short (n : nat) (i : string) :
  String.length i < 19 -> Some i <> Some (stamp n).
Proof.
  intros Hlen [= ->]. unfold stamp in Hlen. cbn in Hlen. lia.
Qed.

Lemma batch_never_rewrites_witness :
  exists l,
    projects (durable (snd (save_projects calm [villa_closed; no_link]
                              (start house_db)))) = house_row :: l.
Proof.
  destruct (batch_never_rewrites_a_row calm [villa_closed; no_link]
              (start house_db)) as (l & Hl & _).
  - intros n r [<-|[]]. apply stamp_not_short. cbn. lia.
  - intros n p [<-|[<-|[]]]; [apply stamp_not_short; cbn; lia|discriminate].
  - exists l. exact Hl.
Defined.

(** ** A batch of new records *)

Lemma hd_error_none_nil {A} (l : list A) : hd_error l = None -> l = [].
Proof. destruct l; [reflexivity|discriminate]. Qed.

Lemma existing_row_after_insert (d : database) (r : project_row) (id : value) :
  existing_row d id = None ->
  sql_eq (r_list_id r) id = false ->
  existing_row (mkDb (projects d ++ [r]) (changes d)) id = None.
Proof.
  unfold existing_row, fetchone. intros Hd Hr. cbn.
  rewrite filter_app, (hd_error_none_nil _ Hd). cbn. now rewrite Hr.
Qed.

Lemma sql_eq_other (p q : project) (i : string) :
  list_id p = Some i -> ~ In i (batch_ids [q]) ->
  sql_eq (list_id p) (list_id q) = false.
Proof.
  intros Hp Hq. destruct (sql_eq (list_id p) (list_id q)) eqn:Heq; [|easy].
  apply sql_eq_eq in Heq. exfalso. apply Hq. cbn.
  rewrite <- Heq, Hp. now left.
Qed.

Lemma loop_fresh (E : env) (ps : list project) :
  forall s,
    (forall k, raises E k = false) ->
    NoDup (batch_ids ps) ->
    (forall p, In p ps -> existing_row (working s) (list_id p) = None) ->
    for_each ps (process E) s =
    (Ok tt,
     mkState (durable s)
       (mkDb (projects (working s) ++ new_rows (now E) (n_now s) ps)
             (changes (working s)))
       (n_calls s + 2 * List.length ps) (n_now s + List.length ps)
       (n_fetch s)
       (stdout s ++ map (fun p => NewProjectAdded (title p)) ps)).
Proof.
  induction ps as [|p ps IH]; intros s Hcalm Hnd Hnew.
  - cbn. unfold ret. rewrite !app_nil_r, !Nat.add_0_r.
    destruct s as [du [rows chs] nc nn nf out]. reflexivity.
  - rewrite loop_cons.
    rewrite (process_absent E p s (fun i _ => Hcalm _)
               (Hnew p (or_introl eq_refl))).
    cbn [snd]. rewrite IH; [| exact Hcalm | |].
    + cbn. rewrite <- !app_assoc. cbn. f_equal. f_equal; lia.
    + unfold batch_ids in *. cbn in Hnd.
      now apply NoDup_app_remove_l in Hnd.
    + intros q Hq. cbn [working].
      apply existing_row_after_insert; [apply Hnew; now right|].
      cbn. destruct (list_id p) as [i|] eqn:Hp; [|reflexivity].
      rewrite <- Hp. apply (sql_eq_other p q i Hp).
      unfold batch_ids in *. cbn in Hnd. rewrite Hp in Hnd. cbn in Hnd.
      apply NoDup_cons_iff in Hnd as [Hnotin _]. intros Hin. apply Hnotin.
      cbn in Hin. rewrite app_nil_r in Hin.
      apply in_flat_map. exists q. auto.
Qed.

Lemma save_projects_fresh (E : env) (ps : list project) (s : state) :
  (forall k, raises E k = false) ->
  NoDup (batch_ids ps) ->
  (forall p, In p ps -> existing_row (durable s) (list_id p) = None) ->
  save_projects E ps s =
  (Ok tt,
   mkState
     (mkDb (projects (durable s) ++ new_rows (now E) (n_now s) ps)
           (changes (durable s)))
     (mkDb (projects (durable s) ++ new_rows (now E) (n_now s) ps)
           (changes (durable s)))
     (S (S (n_calls s + 2 * List.length ps))) (n_now s + List.length ps)
     (n_fetch s)
     (stdout s ++ map (fun p => NewProjectAdded (title p)) ps)).
Proof.
  intros Hcalm Hnd Hnew.
  rewrite (save_projects_calm E Hcalm ps s). cbn zeta.
  rewrite (loop_fresh E ps (set_working (durable s) (tick_calls s))
             Hcalm Hnd Hnew).
  reflexivity.
Qed.

(** X17: a batch whose ids are all new to the store and pairwise
    different (records without id are allowed, any number of them) is
    inserted whole when no database call fails: the rows after the
    commit are the rows before followed by one row per record, in batch
    order, each stamped with its own clock reading; the change log is
    untouched and every record is reported as a new project. *)
Theorem batch_of_new_records_is_inserted_in_order
  (E : env) (ps : list project) (s : state) :
  (forall k, raises E k = false) ->
  NoDup (batch_ids ps) ->
  (forall p, In p ps -> existing_row (durable s) (list_id p) = None) ->
  fst (save_projects E ps s) = Ok tt /\
  durable (snd (save_projects E ps s)) =
    mkDb (projects (durable s) ++ new_rows (now E) (n_now s) ps)
         (changes (durable s)) /\
  stdout (snd (save_projects E ps s)) =
    stdout s ++ map (fun p => NewProjectAdded (title p)) ps.
Proof.
  intros Hcalm Hnd Hnew.
  rewrite (save_projects_fresh E ps s Hcalm Hnd Hnew). cbn. auto.
Qed.

Lemma batch_of_new_records_witness :
  projects (durable (snd (save_projects calm [no_link; villa_closed; no_link]
                            (start empty_db)))) =
    [new_row no_link (stamp 0); new_row villa_closed (stamp 1);
     new_row no_link (stamp 2)].
Proof.
  destruct (batch_of_new_records_is_inserted_in_order calm
              [no_link; villa_closed; no_link] (start empty_db))
    as (_ & Hd & _).
  - reflexivity.
  - repeat constructor. intros [].
  - intros p _. reflexivity.
  - rewrite Hd. reflexivity.
Defined.

(** ** Records without an id pile up *)

Lemma batch_ids_none (ps : list project) :
  (forall p, In p ps -> list_id p = None) -> batch_ids ps = [].
Proof.
  induction ps as [|p ps IH]; intros H; [reflexivity|].
  unfold batch_ids in *. cbn. rewrite (H p (or_introl eq_refl)). cbn.
  apply IH. intros q Hq. apply H. now right.
Qed.

Lemma new_rows_length (now : nat -> datetime) (ps : list project) :
  forall n, List.length (new_rows now n ps) = List.length ps.
Proof. induction ps as [|p ps IH]; intros n; cbn; [|rewrite IH]; reflexivity. Qed.

Lemma scrape_and_save_without_ids
  (E : env) (html : string) (ps : list project) (s : state) :
  (forall k, raises E k = false) ->
  fetch E (n_fetch s) = Some html ->
  parse E html = Some ps ->
  (forall p, In p ps -> list_id p = None) ->
  List.length (projects (durable (snd (scrape_and_save E s)))) =
    List.length (projects (durable s)) + List.length ps.
Proof.
  intros Hcalm Hf Hp Hnone.
  unfold scrape_and_save, datetime_now, fetch_projects, parse_projects.
  unfold bind at 1. unfold bind at 1. unfold print at 1. unfold try_except.
  unfold bind at 1. cbn [n_fetch put_line tick_now]. rewrite Hf.
  unfold bind at 1. rewrite Hp. unfold ret. unfold bind at 1.
  rewrite save_projects_fresh.
  - cbn. now rewrite length_app, new_rows_length.
  - exact Hcalm.
  - rewrite (batch_ids_none ps Hnone). constructor.
  - intros p Hp'. rewrite (Hnone p Hp'). apply existing_row_null.
Qed.

(** X18: records without an id are stored again by every cycle: when
    the page is fetched every time, its records all lack an id and no
    database call fails, [n] cycles add [n] rows per record to
    [projects]. *)
Theorem records_without_id_pile_up
  (E : env) (html : string) (ps : list project) (n : nat) (s : state) :
  (forall k, raises E k = false) ->
  (forall k, fetch E k = Some html) ->
  parse E html = Some ps ->
  (forall p, In p ps -> list_id p = None) ->
  List.length (projects (durable (snd (cycles E n s)))) =
    List.length (projects (durable s)) + n * List.length ps.
Proof.
  intros Hcalm Hf Hp Hnone. revert s.
  induction n as [|n IH]; intros s; [cbn; lia|].
  cbn [cycles]. unfold bind.
  pose proof (scrape_and_save_returns E s) as Hok.
  pose proof (scrape_and_save_without_ids E html ps s Hcalm (Hf _) Hp Hnone)
    as Hlen.
  destruct (scrape_and_save E s) as [[[]|e] s1]; cbn in Hok, Hlen;
    [|discriminate].
  rewrite IH, Hlen. cbn. lia.
Qed.

Lemma records_without_id_pile_up_witness :
  List.length
    (projects (durable (snd (cycles
       (mkEnv (fun _ => false) stamp (fun _ => Some "page")
          (fun _ => Some [no_link]))
       3 (start house_db))))) = 4.
Proof.
  apply (records_without_id_pile_up
           (mkEnv (fun _ => false) stamp (fun _ => Some "page")
              (fun _ => Some [no_link]))
           "page" [no_link] 3 (start house_db)).
  - reflexivity.
  - reflexivity.
  - reflexivity.
  - intros p [<-|[]]. reflexivity.
Defined.
